(** * social-video-downloader: the URL pipeline of [src/App.tsx]

    A shallow embedding of the logic of the [App] component: the platform
    table, [detectPlatform], [validateUrl], the mocked [fetchMediaContent],
    [processUrl], [clearAndReset] and the [useEffect] keyed on [url],
    followed by the properties of the session state they maintain.

    Conventions of the embedding.
    - A JavaScript string is a Rocq [string]; each character stands for one
      UTF-16 code unit below 256.
    - React state is the record [State]; the timers armed by [setTimeout]
      are a finite map from timer ids to the data their callback closes over.
    - A render is a snapshot: the closures created by one call of [App]
      read the state variables of that call, whatever setters have been
      called since.  Handlers therefore take the snapshot they close over as
      an argument and write to the state threaded through [Eff]. *)

From Stdlib Require Import String Ascii ZArith QArith Qround DecimalString.
From stdpp Require Import base option list strings gmap.

Local Open Scope string_scope.

(** ** JavaScript values used by the component *)

(** The result of evaluating an expression that may throw. *)
Inductive completion (A : Type) : Type :=
  | Normal (value : A)
  | Throw (reason : string).
Arguments Normal {A} value.
Arguments Throw {A} reason.

Definition charCode (c : ascii) : N := N_of_ascii c.

Definition between (lo hi : N) (c : ascii) : bool :=
  (lo <=? charCode c)%N && (charCode c <=? hi)%N.

Definition isUpper (c : ascii) : bool :=
  between 65 90 c || (between 192 222 c && negb (charCode c =? 215)%N).

(** [String.prototype.toLowerCase] on code units below 256: A-Z and the
    Latin-1 capitals U+00C0..U+00DE (except the multiplication sign) move up
    by 32, everything else is unchanged. *)
Definition lowerChar (c : ascii) : ascii :=
  if isUpper c then ascii_of_N (charCode c + 32) else c.

Fixpoint toLowerCase (s : string) : string :=
  match s with
  | EmptyString => EmptyString
  | String c t => String (lowerChar c) (toLowerCase t)
  end.

(** [String.prototype.includes]: [needle] occurs in [s] at some position. *)
Fixpoint includes (s needle : string) : bool :=
  String.prefix needle s ||
  match s with
  | EmptyString => false
  | String _ t => includes t needle
  end.

(** White space and line terminators of ECMAScript below 256. *)
Definition isWhiteSpace (c : ascii) : bool :=
  between 9 13 c || (charCode c =? 32)%N || (charCode c =? 160)%N.

Fixpoint trimStart (s : string) : string :=
  match s with
  | EmptyString => EmptyString
  | String c t => if isWhiteSpace c then trimStart t else s
  end.

Fixpoint trimEnd (s : string) : string :=
  match s with
  | EmptyString => EmptyString
  | String c t =>
      match trimEnd t with
      | EmptyString => if isWhiteSpace c then EmptyString else String c EmptyString
      | t' => String c t'
      end
  end.

Definition trim (s : string) : string := trimEnd (trimStart s).

(** Truthiness of a string: every string but the empty one. *)
Definition truthy (s : string) : bool :=
  match s with EmptyString => false | String _ _ => true end.

(** [n] characters of [filler] repeated, starting inside [cur]. *)
Fixpoint cycle (n : nat) (filler cur : string) : string :=
  match n with
  | O => EmptyString
  | S n' =>
      match cur with
      | String c r => String c (cycle n' filler r)
      | EmptyString =>
          match filler with
          | String c r => String c (cycle n' filler r)
          | EmptyString => EmptyString
          end
      end
  end.

(** [String.prototype.padStart]. *)
Definition padStart (target : nat) (filler : string) (s : string) : string :=
  cycle (target - String.length s) filler filler +:+ s.

(** [Number.prototype.toString] on integers. *)
Definition Number_toString (z : Z) : string :=
  NilZero.string_of_int (Z.to_int z).

(** [Math.floor (r * n)] for a sample [r] of [Math.random] and an integer
    constant [n].  The product is exact here; IEEE rounding can move it
    across an integer on boundary samples, but never out of [0, n-1]. *)
Definition floorScaled (r : Q) (n : Z) : Z := Qfloor (r * inject_Z n).

(** [r > c] on numbers, the decimal constant [c] taken exactly. *)
Definition greater (r c : Q) : bool := negb (Qle_bool r c).

(** A value [Math.random] can return: at least 0 and strictly below 1. *)
Definition unitInterval (r : Q) : Prop := (0 <= r)%Q /\ (r < 1)%Q.

(** Array indexing [xs[i]]: [None] is [undefined]. *)
Definition index {A} (xs : list A) (i : Z) : option A :=
  if (i <? 0)%Z then None else xs !! Z.to_nat i.

(** ** The [URL] constructor of the platform

    [new URL(input)] is not code of this repository: it runs the basic URL
    parser of the WHATWG URL Standard without a base URL and throws a
    [TypeError] when that parser returns failure.  The parser is modelled
    after the Standard on the inputs whose outcome needs no host processing
    beyond ASCII lower-casing:
    - inputs without a scheme (failure, as there is no base URL);
    - non-special schemes followed by an opaque path or by a path;
    - special schemes other than [file] followed by exactly two slashes and
      a domain of ASCII labels that the host parser accepts unchanged.
    Every other input reaches the remaining states of the Standard
    (credentials, ports, IP addresses, IDNA, [file] hosts), which are a
    parameter of the development ([laterStates] below). *)

Record URLRecord : Type := mkURL {
  url_scheme : string;
  url_host : option string;
  url_remaining : string
}.

Definition isC0ControlOrSpace (c : ascii) : bool := (charCode c <=? 32)%N.

Definition isTabOrNewline (c : ascii) : bool :=
  (charCode c =? 9)%N || (charCode c =? 10)%N || (charCode c =? 13)%N.

Definition isAlpha (c : ascii) : bool := between 65 90 c || between 97 122 c.
Definition isDigit (c : ascii) : bool := between 48 57 c.
Definition isAlnum (c : ascii) : bool := isAlpha c || isDigit c.

Definition asciiLower (c : ascii) : ascii :=
  if between 65 90 c then ascii_of_N (charCode c + 32) else c.

Fixpoint stripLeading (s : string) : string :=
  match s with
  | EmptyString => EmptyString
  | String c t => if isC0ControlOrSpace c then stripLeading t else s
  end.

Fixpoint stripTrailing (s : string) : string :=
  match s with
  | EmptyString => EmptyString
  | String c t =>
      match stripTrailing t with
      | EmptyString =>
          if isC0ControlOrSpace c then EmptyString else String c EmptyString
      | t' => String c t'
      end
  end.

Fixpoint removeTabNewline (s : string) : string :=
  match s with
  | EmptyString => EmptyString
  | String c t =>
      if isTabOrNewline c then removeTabNewline t
      else String c (removeTabNewline t)
  end.

Definition preprocess (input : string) : string :=
  removeTabNewline (stripTrailing (stripLeading input)).

Definition isSchemeChar (c : ascii) : bool :=
  isAlnum c || Ascii.eqb c "+" || Ascii.eqb c "-" || Ascii.eqb c ".".

(** Scheme state: the scheme collected so far and the input left.  The
    result is the lower-cased scheme and what follows its colon; [None] is
    the no-scheme state, a failure when there is no base URL. *)
Fixpoint schemeState (buffer input : string) : option (string * string) :=
  match input with
  | EmptyString => None
  | String c rest =>
      if isSchemeChar c
      then schemeState (buffer +:+ String (asciiLower c) EmptyString) rest
      else if Ascii.eqb c ":" then Some (buffer, rest)
      else None
  end.

Definition schemeStartState (input : string) : option (string * string) :=
  match input with
  | EmptyString => None
  | String c rest =>
      if isAlpha c then schemeState (String (asciiLower c) EmptyString) rest
      else None
  end.

Definition specialSchemes : list string :=
  ["ftp"; "file"; "http"; "https"; "ws"; "wss"].

Definition isSpecial (scheme : string) : bool :=
  existsb (String.eqb scheme) specialSchemes.

Definition endsHost (c : ascii) : bool :=
  Ascii.eqb c "/" || Ascii.eqb c "?" || Ascii.eqb c "#" || Ascii.eqb c "\".

Fixpoint hostBuffer (s : string) : string :=
  match s with
  | EmptyString => EmptyString
  | String c t => if endsHost c then EmptyString else String c (hostBuffer t)
  end.

Fixpoint afterHost (s : string) : string :=
  match s with
  | EmptyString => EmptyString
  | String c t => if endsHost c then s else afterHost t
  end.

(** The labels of a domain, split strictly on the full stop. *)
Fixpoint labels (current s : string) : list string :=
  match s with
  | EmptyString => [current]
  | String c t =>
      if Ascii.eqb c "." then current :: labels EmptyString t
      else labels (current +:+ String c EmptyString) t
  end.

Fixpoint allChars (p : ascii -> bool) (s : string) : bool :=
  match s with
  | EmptyString => true
  | String c t => p c && allChars p t
  end.

Definition plainLabel (l : string) : bool :=
  truthy l
  && allChars (fun c => isAlnum c || Ascii.eqb c "-") l
  && negb (includes l "--").

(** A domain on which the host parser is ASCII lower-casing: non-empty
    labels of letters, digits and single hyphens (so none is Punycode), the
    last one alphabetic (so the host does not end in a number). *)
Definition plainDomain (h : string) : bool :=
  forallb plainLabel (labels EmptyString h)
  && match last (labels EmptyString h) with
     | Some l => allChars isAlpha l
     | None => false
     end.

Definition plainAuthority (rest : string) : option URLRecord :=
  match rest with
  | String "/" (String "/" after) =>
      if plainDomain (hostBuffer after)
      then Some (mkURL EmptyString (Some (toLowerCase (hostBuffer after)))
                       (afterHost after))
      else None
  | _ => None
  end.

Definition withScheme (scheme : string) (u : URLRecord) : URLRecord :=
  mkURL scheme (url_host u) (url_remaining u).

(** ** The platform table *)

Inductive Icon : Type := Instagram | Twitter | Facebook | Globe.

Record DetectedPlatform : Type := mkPlatform {
  name : string;
  icon : Icon;
  color : string;
  supported : bool
}.

Module platforms.
Definition instagram : DetectedPlatform :=
  mkPlatform "Instagram" Instagram "from-pink-500 to-purple-600" true.
Definition twitter : DetectedPlatform :=
  mkPlatform "X (Twitter)" Twitter "from-blue-400 to-blue-600" true.
Definition facebook : DetectedPlatform :=
  mkPlatform "Facebook" Facebook "from-blue-600 to-blue-800" true.
Definition threads : DetectedPlatform :=
  mkPlatform "Threads" Globe "from-gray-600 to-gray-800" true.
Definition default : DetectedPlatform :=
  mkPlatform "Unknown Platform" Globe "from-gray-500 to-gray-700" false.
End platforms.

Definition detectPlatform (inputUrl : string) : DetectedPlatform :=
  let urlLower := toLowerCase inputUrl in
  if includes urlLower "instagram.com" then platforms.instagram
  else if includes urlLower "twitter.com" || includes urlLower "x.com"
    then platforms.twitter
  else if includes urlLower "facebook.com" || includes urlLower "fb.com"
    then platforms.facebook
  else if includes urlLower "threads.net" then platforms.threads
  else platforms.default.

(** [detectedPlatform?.supported] as a condition: [null] is falsy. *)
Definition supportedOpt (p : option DetectedPlatform) : bool :=
  match p with Some d => supported d | None => false end.

(** ** The mocked extraction *)

Inductive MediaType : Type := video | image | carousel.

(** [title] and [duration] are optional; [resolution] is read from an array
    by index, so it is [None] ([undefined]) if the index misses the array. *)
Record MediaContent : Type := mkMedia {
  type : MediaType;
  thumbnail : string;
  downloadUrl : string;
  title : option string;
  duration : option string;
  resolution : option string
}.

(** The samples one run of the timer callback draws from [Math.random], by
    the expression that consumes each. *)
Record Rolls : Type := mkRolls {
  roll_success : Q;
  roll_video : Q;
  roll_photo : Q;
  roll_file : Q;
  roll_minutes : Q;
  roll_seconds : Q;
  roll_resolution : Q
}.

Definition rollsInRange (r : Rolls) : Prop :=
  unitInterval (roll_success r) /\ unitInterval (roll_video r) /\
  unitInterval (roll_photo r) /\ unitInterval (roll_file r) /\
  unitInterval (roll_minutes r) /\ unitInterval (roll_seconds r) /\
  unitInterval (roll_resolution r).

Definition mockContent (inputUrl : string) (platform : DetectedPlatform)
    (r : Rolls) : MediaContent :=
  let isVideo := greater (roll_video r) (4 # 10) in
  {| type := if isVideo then video else image;
     thumbnail :=
       "https://images.pexels.com/photos/"
       +:+ Number_toString (1000 + floorScaled (roll_photo r) 2000)
       +:+ "/pexels-photo-"
       +:+ Number_toString (1000 + floorScaled (roll_file r) 2000)
       +:+ ".jpeg?auto=compress&cs=tinysrgb&w=400";
     downloadUrl := inputUrl;
     title := Some (name platform +:+ " "
                    +:+ (if isVideo then "Video" else "Image"));
     duration :=
       if isVideo
       then Some (Number_toString (floorScaled (roll_minutes r) 3 + 1)
                  +:+ ":"
                  +:+ padStart 2 "0"
                        (Number_toString (floorScaled (roll_seconds r) 60)))
       else None;
     resolution :=
       index ["720p"; "1080p"; "4K"] (floorScaled (roll_resolution r) 3) |}.

(** The callback given to [setTimeout]: it settles the promise that
    [fetchMediaContent] returned. *)
Definition timerCallback (inputUrl : string) (platform : DetectedPlatform)
    (r : Rolls) : completion MediaContent :=
  if greater (roll_success r) (1 # 10)
  then Normal (mockContent inputUrl platform r)
  else Throw "Failed to extract media".

(** ** Component state and the event loop *)

Record State : Type := mkState {
  url : string;
  isValidUrl : bool;
  detectedPlatform : option DetectedPlatform;
  isProcessing : bool;
  mediaContent : option MediaContent;
  error : option string
}.

(** What the callback of an armed timer closes over. *)
Record Armed : Type := mkArmed {
  armed_inputUrl : string;
  armed_platform : DetectedPlatform
}.

Record Runtime : Type := mkRuntime {
  ui : State;
  timers : gmap nat Armed;
  nextTimer : nat
}.

(** Computations that call setters and arm timers. *)
Definition Eff (A : Type) : Type := Runtime -> A * Runtime.

#[global] Instance Eff_ret : MRet Eff := fun A a rt => (a, rt).
#[global] Instance Eff_bind : MBind Eff :=
  fun A B k m rt => let '(a, rt') := m rt in k a rt'.

Definition exec {A} (m : Eff A) (rt : Runtime) : Runtime := snd (m rt).

Definition readState : Eff State := fun rt => (ui rt, rt).

Definition update (f : State -> State) : Eff unit :=
  fun rt => (tt, mkRuntime (f (ui rt)) (timers rt) (nextTimer rt)).

Definition setUrl (v : string) : Eff unit :=
  update (fun s => mkState v (isValidUrl s) (detectedPlatform s)
                           (isProcessing s) (mediaContent s) (error s)).
Definition setIsValidUrl (v : bool) : Eff unit :=
  update (fun s => mkState (url s) v (detectedPlatform s)
                           (isProcessing s) (mediaContent s) (error s)).
Definition setDetectedPlatform (v : option DetectedPlatform) : Eff unit :=
  update (fun s => mkState (url s) (isValidUrl s) v
                           (isProcessing s) (mediaContent s) (error s)).
Definition setIsProcessing (v : bool) : Eff unit :=
  update (fun s => mkState (url s) (isValidUrl s) (detectedPlatform s)
                           v (mediaContent s) (error s)).
Definition setMediaContent (v : option MediaContent) : Eff unit :=
  update (fun s => mkState (url s) (isValidUrl s) (detectedPlatform s)
                           (isProcessing s) v (error s)).
Definition setError (v : option string) : Eff unit :=
  update (fun s => mkState (url s) (isValidUrl s) (detectedPlatform s)
                           (isProcessing s) (mediaContent s) v).

(** [setTimeout]: the callback is stored under a fresh id.  The delay is
    not modelled: an armed timer may fire at any later point. *)
Definition setTimeout (cb : Armed) : Eff nat :=
  fun rt => (nextTimer rt,
             mkRuntime (ui rt) (<[nextTimer rt := cb]> (timers rt))
                       (S (nextTimer rt))).

(** A timer fires once: its entry is taken out of the table. *)
Definition takeTimer (id : nat) : Eff (option Armed) :=
  fun rt => (timers rt !! id,
             mkRuntime (ui rt) (delete id (timers rt)) (nextTimer rt)).

(** The promise executor runs at once and only arms the timer. *)
Definition fetchMediaContent (inputUrl : string) (platform : DetectedPlatform)
    : Eff nat :=
  setTimeout (mkArmed inputUrl platform).

(** [processUrl] up to its [await].  [isValidUrl] and [detectedPlatform] are
    those of the render that created this closure. *)
Definition processUrl (snapshot : State) (inputUrl : string) : Eff unit :=
  if negb (isValidUrl snapshot) || negb (supportedOpt (detectedPlatform snapshot))
  then mret tt
  else
    setIsProcessing true ;;
    setError None ;;
    setMediaContent None ;;
    match detectedPlatform snapshot with
    | Some platform => fetchMediaContent inputUrl platform ;; mret tt
    | None => mret tt
    end.

(** [processUrl] from its [await] on, once the promise has settled. *)
Definition processUrl_settled (outcome : completion MediaContent) : Eff unit :=
  match outcome with
  | Normal content => setMediaContent (Some content)
  | Throw _ =>
      setError
        (Some "Failed to process the URL. Please check the link and try again.")
  end ;;
  setIsProcessing false.

Definition clearAndReset : Eff unit :=
  setUrl EmptyString ;;
  setIsValidUrl false ;;
  setDetectedPlatform None ;;
  setIsProcessing false ;;
  setMediaContent None ;;
  setError None.

Section WithURL.

(** The states of the URL Standard that are not modelled, entered with the
    scheme and the input after its colon. *)
Variable laterStates : string -> string -> completion URLRecord.

Definition URL_new (input : string) : completion URLRecord :=
  match schemeStartState (preprocess input) with
  | None => Throw "TypeError: Invalid URL"
  | Some (scheme, rest) =>
      if String.eqb scheme "file" then laterStates scheme rest
      else if isSpecial scheme then
        match plainAuthority rest with
        | Some u => Normal (withScheme scheme u)
        | None => laterStates scheme rest
        end
      else
        match rest with
        | String "/" (String "/" _) => laterStates scheme rest
        | _ => Normal (mkURL scheme None rest)
        end
  end.

Definition validateUrl (inputUrl : string) : bool :=
  match URL_new inputUrl with
  | Normal _ => true
  | Throw _ => false
  end.

(** The body of the effect with dependency list [[url]], as created by the
    render whose state is [snapshot]. *)
Definition urlEffect (snapshot : State) : Eff unit :=
  let url := url snapshot in
  if truthy (trim url) then
    let valid := validateUrl url in
    setIsValidUrl valid ;;
    if valid then
      let platform := detectPlatform url in
      setDetectedPlatform (Some platform) ;;
      if supported platform then processUrl snapshot url
      else
        setError
          (Some "This platform is not supported yet. We support Instagram, Facebook, X (Twitter), and Threads.")
    else
      setDetectedPlatform None ;;
      setMediaContent None ;;
      setError None
  else
    setIsValidUrl false ;;
    setDetectedPlatform None ;;
    setMediaContent None ;;
    setError None ;;
    setIsProcessing false.

(** The render after a handler: the effect runs if [url] differs from its
    value at the previous render. *)
Definition rerender (previousUrl : string) : Eff unit :=
  snapshot ← readState;
  if String.eqb (url snapshot) previousUrl then mret tt
  else urlEffect snapshot.

Inductive Event : Type :=
  | Change (value : string)
  | ClickReset
  | TimerFires (id : nat) (r : Rolls).

Definition handle (e : Event) : Eff unit :=
  match e with
  | Change value =>
      before ← readState;
      setUrl value ;;
      rerender (url before)
  | ClickReset =>
      before ← readState;
      clearAndReset ;;
      rerender (url before)
  | TimerFires id r =>
      cb ← takeTimer id;
      match cb with
      | Some a =>
          processUrl_settled
            (timerCallback (armed_inputUrl a) (armed_platform a) r)
      | None => mret tt
      end
  end.

Definition step (rt : Runtime) (e : Event) : Runtime := exec (handle e) rt.

Definition run (es : list Event) (rt : Runtime) : Runtime :=
  fold_left step es rt.

End WithURL.

Definition Idle : State := mkState EmptyString false None false None None.

(** The component after mounting: the effect of the first render runs on the
    empty [url] and leaves the initial values in place. *)
Definition mounted : Runtime := mkRuntime Idle ∅ 0.

(** The constructor cut down to the modelled inputs: whatever would reach
    the later states is rejected.  It serves to run the component on
    concrete inputs; those used below are all modelled, so that their
    outcome is the same for every other choice ([URL_new_modelled]). *)
Definition onlyModelled : string -> string -> completion URLRecord :=
  fun _ _ => Throw "TypeError: Invalid URL".

(** An input is modelled when its parse never consults the later states. *)
Definition modelled (input : string) : bool :=
  match schemeStartState (preprocess input) with
  | None => true
  | Some (scheme, rest) =>
      if String.eqb scheme "file" then false
      else if isSpecial scheme then bool_decide (is_Some (plainAuthority rest))
      else match rest with
           | String "/" (String "/" _) => false
           | _ => true
           end
  end.

(** ** The specification's vocabulary *)

(** [needle] occurs in [text]. *)
Definition occurs (needle text : string) : Prop :=
  exists before after, text = before +:+ needle +:+ after.

(** The classifier's rules in their order of precedence: the host
    substrings of a rule and the platform it yields. *)
Definition classifyRules : list (list string * DetectedPlatform) :=
  [ (["instagram.com"], platforms.instagram);
    (["twitter.com"; "x.com"], platforms.twitter);
    (["facebook.com"; "fb.com"], platforms.facebook);
    (["threads.net"], platforms.threads) ].

(** First matching rule wins; the Unknown descriptor when none matches. *)
Inductive Classifies (text : string)
    : list (list string * DetectedPlatform) -> DetectedPlatform -> Prop :=
  | classifies_unknown : Classifies text [] platforms.default
  | classifies_here needles p rules needle :
      In needle needles -> occurs needle text ->
      Classifies text ((needles, p) :: rules) p
  | classifies_later needles p rules q :
      (forall needle, In needle needles -> ~ occurs needle text) ->
      Classifies text rules q ->
      Classifies text ((needles, p) :: rules) q.

Definition digitChar (d : Z) : ascii := ascii_of_N (48 + Z.to_N d).

(** Seconds written with two digits. *)
Definition twoDigits (s : Z) : string :=
  String (digitChar (s / 10)) (String (digitChar (s mod 10)) EmptyString).

(** The states of the session state machine, as conditions on [State]. *)
Definition ValidUnsupported (s : State) : Prop :=
  isValidUrl s = true /\
  exists p, detectedPlatform s = Some p /\ supported p = false.

Definition Pending (s : State) : Prop :=
  isProcessing s = true /\ mediaContent s = None /\ error s = None.

Definition Ready (content : MediaContent) (s : State) : Prop :=
  mediaContent s = Some content /\ isProcessing s = false /\ error s = None.

Definition Failed (s : State) : Prop :=
  error s
    = Some "Failed to process the URL. Please check the link and try again."
  /\ isProcessing s = false /\ mediaContent s = None.

(** What a settled promise writes, whatever the state it finds. *)
Definition settle (outcome : completion MediaContent) (s : State) : State :=
  match outcome with
  | Normal content =>
      mkState (url s) (isValidUrl s) (detectedPlatform s) false
              (Some content) (error s)
  | Throw _ =>
      mkState (url s) (isValidUrl s) (detectedPlatform s) false
              (mediaContent s)
              (Some "Failed to process the URL. Please check the link and try again.")
  end.

Definition isFire (e : Event) : bool :=
  match e with TimerFires _ _ => true | _ => false end.

(** Histories without a stale resolution and without the one input change
    that keeps an old result next to a new message: the user acts only when
    no timer is armed, and does not move to a valid URL of an unsupported
    platform while a result is shown. *)
Inductive Orderly (laterStates : string -> string -> completion URLRecord)
    : Runtime -> Prop :=
  | orderly_mounted : Orderly laterStates mounted
  | orderly_change rt value :
      Orderly laterStates rt ->
      timers rt = ∅ ->
      (validateUrl laterStates value = true ->
       supported (detectPlatform value) = false ->
       mediaContent (ui rt) = None) ->
      Orderly laterStates (step laterStates rt (Change value))
  | orderly_reset rt :
      Orderly laterStates rt ->
      timers rt = ∅ ->
      Orderly laterStates (step laterStates rt ClickReset)
  | orderly_fires rt id r :
      Orderly laterStates rt ->
      Orderly laterStates (step laterStates rt (TimerFires id r)).

(** The invariant of orderly histories: at most one timer is armed, and
    while it is there is neither a result nor a message. *)
Definition settledOrWaiting (rt : Runtime) : Prop :=
  (timers rt = ∅ /\ (mediaContent (ui rt) = None \/ error (ui rt) = None))
  \/ (exists id a, timers rt = {[ id := a ]}
                   /\ mediaContent (ui rt) = None /\ error (ui rt) = None).

(** Samples for a successful extraction of a video, and for a failed one. *)
Definition rollsVideo : Rolls :=
  mkRolls (1 # 2) (1 # 2) (1 # 2) (1 # 3) (9 # 10) (1 # 10) (99 # 100).

Definition rollsFailure : Rolls :=
  mkRolls (1 # 20) (1 # 2) (1 # 2) (1 # 3) (9 # 10) (1 # 10) (99 # 100).

(** One extraction in flight: a URL pasted, then one more character typed,
    which is the keystroke that starts the extraction. *)
Definition oneInFlight : Runtime :=
  run onlyModelled
      [Change "https://instagram.com/p";
       Change "https://instagram.com/p/"]
      mounted.

(** Two extractions in flight: a URL pasted, then two more characters
    typed, each keystroke starting an extraction. *)
Definition twoInFlight : Runtime :=
  run onlyModelled
      [Change "https://instagram.com/p";
       Change "https://instagram.com/p/";
       Change "https://instagram.com/p/x"]
      mounted.

(** The first extraction of [oneInFlight] has succeeded. *)
Definition readyAfterOne : Runtime :=
  step onlyModelled oneInFlight (TimerFires 0 rollsVideo).

(** ** What the component renders

    The JSX returned by [App], reduced to the elements whose presence or
    text depends on the state; class names and static text are left out,
    and so is the [onError] fallback of the preview image. *)

Inductive ValidityIcon : Type := CheckCircle | AlertCircle.

Inductive KindIcon : Type := Play | ImageIcon.

(** The "Platform Detection" block. *)
Record PlatformPanel : Type := mkPlatformPanel {
  panel_gradient : string;
  panel_icon : Icon;
  panel_heading : string;
  panel_status : string;
  panel_spinner : bool
}.

(** The "Media Preview & Download" block; it carries the two buttons
    (download, reset).  The texts made of several JSX children are kept as
    their parts: [None] renders nothing. *)
Record Preview : Type := mkPreview {
  preview_src : string;
  preview_play : bool;
  preview_duration : option string;
  preview_kindIcon : KindIcon;
  preview_type : MediaType;
  preview_resolution : option string;
  preview_title : option string;
  preview_platform : option string
}.

Record View : Type := mkView {
  view_input : string;
  view_validity : option ValidityIcon;
  view_reset : bool;
  view_platform : option PlatformPanel;
  view_error : option string;
  view_processing : option string;
  view_preview : option Preview
}.

(** [x && <jsx>] on an optional string: nothing for [null], [undefined]
    and the empty string. *)
Definition shown (o : option string) : option string :=
  match o with
  | Some s => if truthy s then Some s else None
  | None => None
  end.

Definition render (s : State) : View :=
  {| view_input := url s;
     view_validity :=
       if truthy (url s)
       then Some (if isValidUrl s then CheckCircle else AlertCircle)
       else None;
     view_reset := truthy (url s);
     view_platform :=
       match detectedPlatform s with
       | Some p =>
           if isValidUrl s
           then Some (mkPlatformPanel
                        ("p-2 rounded-lg bg-gradient-to-r " +:+ color p)
                        (icon p)
                        (name p +:+ " Detected")
                        (if supported p then "Processing automatically..."
                         else "Platform not supported yet")
                        (isProcessing s))
           else None
       | None => None
       end;
     view_error := shown (error s);
     view_processing :=
       if isProcessing s
       then match detectedPlatform s with
            | Some p =>
                if supported p
                then Some ("Processing your " +:+ name p +:+ " link...")
                else None
            | None => None
            end
       else None;
     view_preview :=
       match mediaContent s with
       | Some mc =>
           if negb (isProcessing s)
           then Some (mkPreview
                        (thumbnail mc)
                        (match type mc with video => true | _ => false end)
                        (shown (duration mc))
                        (match type mc with video => Play | _ => ImageIcon end)
                        (type mc)
                        (resolution mc)
                        (title mc)
                        (option_map name (detectedPlatform s)))
           else None
       | None => None
       end |}.

(** ** [handleDownload] and the document it acts on

    The document is the platform's: the children of [document.body] are
    node identities, [createElement] yields an identity not used before,
    [removeChild] throws unless the node is a child, and a click on an
    anchor is recorded with the attributes the anchor has then. *)

Record Anchor : Type := mkAnchor {
  href : string;
  download : string;
  target : string
}.

Record Page : Type := mkPage {
  body : list nat;
  created : nat;
  clicked : list Anchor;
  console : list string
}.

Definition appendChild (node : nat) (page : Page) : Page :=
  mkPage (body page ++ [node]) (created page) (clicked page) (console page).

Fixpoint without (node : nat) (children : list nat) : option (list nat) :=
  match children with
  | [] => None
  | c :: rest =>
      if Nat.eqb c node then Some rest
      else option_map (cons c) (without node rest)
  end.

Definition removeChild (node : nat) (page : Page) : completion Page :=
  match without node (body page) with
  | Some children =>
      Normal (mkPage children (created page) (clicked page) (console page))
  | None => Throw "NotFoundError"
  end.

(** A template literal's rendering of an optional string. *)
Definition orUndefined (o : option string) : string :=
  match o with Some s => s | None => "undefined" end.

Definition typeText (t : MediaType) : string :=
  match t with video => "video" | image => "image" | carousel => "carousel" end.

(** [handleDownload] as created by the render whose state is [snapshot];
    [now] is what [Date.now()] returns. *)
Definition handleDownload (snapshot : State) (now : Z) (page : Page)
    : completion Page :=
  match mediaContent snapshot with
  | None => Normal page
  | Some mc =>
      let link := created page in
      let page := mkPage (body page) (S (created page)) (clicked page)
                         (console page) in
      let attributes :=
        mkAnchor (downloadUrl mc)
                 (orUndefined (option_map name (detectedPlatform snapshot))
                  +:+ "_" +:+ Number_toString now +:+ "."
                  +:+ (match type mc with video => "mp4" | _ => "jpg" end))
                 "_blank" in
      let page := appendChild link page in
      let page := mkPage (body page) (created page)
                         (clicked page ++ [attributes]) (console page) in
      match removeChild link page with
      | Normal page =>
          Normal (mkPage (body page) (created page) (clicked page)
                    (console page ++
                     ["Downloading " +:+ typeText (type mc) +:+ " from "
                      +:+ orUndefined (option_map name (detectedPlatform snapshot))
                      +:+ " in " +:+ orUndefined (resolution mc)]))
      | Throw reason => Throw reason
      end
  end.

(** ** Reachable states and what holds in them *)

Definition Reachable (laterStates : string -> string -> completion URLRecord)
    (rt : Runtime) : Prop :=
  exists es, rt = run laterStates es mounted.

(** The validity flag and the platform are those of the current input. *)
Definition derivedFromInput
    (laterStates : string -> string -> completion URLRecord) (s : State)
    : Prop :=
  isValidUrl s = validateUrl laterStates (url s)
  /\ detectedPlatform s
     = (if validateUrl laterStates (url s)
        then Some (detectPlatform (url s)) else None).

(** An extraction is for a valid URL of a supported platform, and is given
    a supported platform. *)
Definition fetchOK (laterStates : string -> string -> completion URLRecord)
    (a : Armed) : Prop :=
  validateUrl laterStates (armed_inputUrl a) = true
  /\ supported (detectPlatform (armed_inputUrl a)) = true
  /\ supported (armed_platform a) = true.

Definition kindWord (t : MediaType) : string :=
  match t with video => "Video" | _ => "Image" end.

(** What every result carries. *)
Definition resultOK (laterStates : string -> string -> completion URLRecord)
    (mc : MediaContent) : Prop :=
  validateUrl laterStates (downloadUrl mc) = true
  /\ supported (detectPlatform (downloadUrl mc)) = true
  /\ type mc <> carousel
  /\ (exists p, supported p = true
                /\ title mc = Some (name p +:+ " " +:+ kindWord (type mc)))
  /\ (shown (duration mc) = duration mc)
  /\ (is_Some (duration mc) <-> type mc = video).

Definition fetchesOK (laterStates : string -> string -> completion URLRecord)
    (rt : Runtime) : Prop :=
  (forall id a, timers rt !! id = Some a -> fetchOK laterStates a)
  /\ (forall mc, mediaContent (ui rt) = Some mc -> resultOK laterStates mc).

(** The condition under which an input change starts an extraction: the
    input differs, it is a valid URL of a supported platform, and the state
    before the change was already valid with a supported platform. *)
Definition startsExtraction
    (laterStates : string -> string -> completion URLRecord)
    (rt : Runtime) (v : string) : bool :=
  bool_decide (v <> url (ui rt))
  && validateUrl laterStates v
  && supported (detectPlatform v)
  && isValidUrl (ui rt)
  && supportedOpt (detectedPlatform (ui rt)).

(** The two messages the component can show. *)
Definition knownMessages : list string :=
  ["This platform is not supported yet. We support Instagram, Facebook, X (Twitter), and Threads.";
   "Failed to process the URL. Please check the link and try again."].

(** A page whose node identities were all handed out by [createElement]. *)
Definition pageOK (page : Page) : Prop :=
  Forall (fun node => (node < created page)%nat) (body page).

(** An extraction for an X URL with a second one, for an Instagram URL,
    started while the render still holds the X platform. *)
Definition pastedOverX : Runtime :=
  run onlyModelled
      [Change "https://x.com/a";
       Change "https://instagram.com/p/q"]
      mounted.

(** An extraction in flight and the input replaced by text that is no URL. *)
Definition invalidWhileInFlight : Runtime :=
  step onlyModelled oneInFlight (Change "oops").

Definition examplePage : Page := mkPage [0%nat; 1%nat] 2 [] [].

(** * Properties *)

(** ** Strings *)

Lemma prefix_occurs_first (needle s : string) :
  String.prefix needle s = true <-> exists after, s = needle +:+ after.
Proof.
  revert s; induction needle as [|c needle IH]; intros s.
  - split; [intros _; by exists s | by destruct s].
  - destruct s as [|d s]; simpl.
    + split; [done | by intros [after H]].
    + destruct (ascii_dec c d) as [->|Hne].
      * rewrite IH. split; intros [after H]; exists after.
        -- by rewrite H.
        -- by injection H.
      * split; [done | intros [after H]; injection H; congruence].
Qed.

Lemma includes_occurs (s needle : string) :
  includes s needle = true <-> occurs needle s.
Proof.
  induction s as [|c s IH]; cbn [includes].
  - rewrite orb_false_r, prefix_occurs_first. split.
    + intros [after H]. by exists EmptyString, after.
    + intros [[|d before] [after H]]; [by exists after | done].
  - rewrite orb_true_iff, prefix_occurs_first, IH. split.
    + intros [[after H] | [before [after H]]].
      * by exists EmptyString, after.
      * exists (String c before), after. simpl. by rewrite H.
    + intros [[|d before] [after H]]; simpl in H.
      * left. by exists after.
      * right. injection H as _ H. by exists before, after.
Qed.

Lemma includes_absent (s needle : string) :
  includes s needle = false <-> ~ occurs needle s.
Proof.
  rewrite <- includes_occurs. destruct (includes s needle); split; congruence.
Qed.

(** ** Classification *)

Lemma Classifies_functional text rules p q :
  Classifies text rules p -> Classifies text rules q -> p = q.
Proof.
  intros Hp. revert q.
  induction Hp as [|needles p rules needle Hin Hocc
                   |needles p rules p' Hnone _ IH]; intros q Hq.
  - by inversion Hq.
  - inversion Hq as [|? ? ? ? _ _|? ? ? ? Hnone _]; subst; [done|].
    by destruct (Hnone needle Hin).
  - inversion Hq as [|? ? ? needle Hin Hocc|]; subst; [|by apply IH].
    by destruct (Hnone needle Hin).
Qed.

Lemma none_of_one text a :
  includes text a = false ->
  forall needle, In needle [a] -> ~ occurs needle text.
Proof. intros Ha needle [<-|[]]. by apply includes_absent. Qed.

Lemma none_of_two text a b :
  includes text a || includes text b = false ->
  forall needle, In needle [a; b] -> ~ occurs needle text.
Proof.
  intros [Ha Hb]%orb_false_elim needle [<-|[<-|[]]]; by apply includes_absent.
Qed.

Lemma one_of_two text a b :
  includes text a || includes text b = true ->
  exists needle, In needle [a; b] /\ occurs needle text.
Proof.
  intros [H|H]%orb_true_iff; apply includes_occurs in H.
  - exists a. split; [by left | done].
  - exists b. split; [right; by left | done].
Qed.

Lemma detectPlatform_Classifies (inputUrl : string) :
  Classifies (toLowerCase inputUrl) classifyRules (detectPlatform inputUrl).
Proof.
  unfold detectPlatform, classifyRules.
  set (text := toLowerCase inputUrl).
  destruct (includes text "instagram.com") eqn:E1.
  { apply classifies_here with (needle := "instagram.com");
      [by left | by apply includes_occurs]. }
  apply classifies_later; [by apply none_of_one|].
  destruct (includes text "twitter.com" || includes text "x.com") eqn:E2.
  { destruct (one_of_two _ _ _ E2) as (needle & Hin & Hocc).
    by apply classifies_here with (needle := needle). }
  apply classifies_later; [by apply none_of_two|].
  destruct (includes text "facebook.com" || includes text "fb.com") eqn:E3.
  { destruct (one_of_two _ _ _ E3) as (needle & Hin & Hocc).
    by apply classifies_here with (needle := needle). }
  apply classifies_later; [by apply none_of_two|].
  destruct (includes text "threads.net") eqn:E4.
  { apply classifies_here with (needle := "threads.net");
      [by left | by apply includes_occurs]. }
  apply classifies_later; [by apply none_of_one|].
  apply classifies_unknown.
Qed.

(** C4. [detectPlatform] lower-cases its argument and yields the platform of
    the first rule, in the order Instagram, X/Twitter, Facebook, Threads,
    one of whose host substrings occurs in it, and the Unknown descriptor,
    which is unsupported, when none does; it is a total function, and that
    platform is the only one the rules allow.  A text in which
    "instagram.com" occurs is Instagram whatever else occurs in it, "x.com"
    included. *)
Theorem detectPlatform_first_match (inputUrl : string) :
  (forall p, Classifies (toLowerCase inputUrl) classifyRules p
             <-> p = detectPlatform inputUrl)
  /\ (occurs "instagram.com" (toLowerCase inputUrl) ->
      detectPlatform inputUrl = platforms.instagram)
  /\ supported platforms.default = false.
Proof.
  split; [|split; [|done]].
  - intros p. split.
    + intros Hp.
      exact (Classifies_functional _ _ _ _ Hp (detectPlatform_Classifies _)).
    + intros ->. apply detectPlatform_Classifies.
  - intros Hocc. unfold detectPlatform.
    apply includes_occurs in Hocc. by rewrite Hocc.
Qed.

Lemma detectPlatform_first_match_witness :
  occurs "x.com" (toLowerCase "https://Instagram.com/x.com")
  /\ detectPlatform "https://Instagram.com/x.com" = platforms.instagram.
Proof.
  split.
  - by apply includes_occurs.
  - apply (detectPlatform_first_match "https://Instagram.com/x.com").
    by apply includes_occurs.
Defined.

(** ** Validation *)

Section Validation.

Variable laterStates : string -> string -> completion URLRecord.


Lemma URL_new_modelled (inputUrl : string) :
  modelled inputUrl = true ->
  URL_new laterStates inputUrl = URL_new onlyModelled inputUrl.
Proof.
  unfold modelled, URL_new.
  destruct (schemeStartState (preprocess inputUrl)) as [[scheme rest]|];
    [|done].
  destruct (String.eqb scheme "file"); [done|].
  destruct (isSpecial scheme).
  - destruct (plainAuthority rest); [done|].
    intros H%bool_decide_eq_true. by destruct H.
  - destruct rest as [|c [|d rest]]; try done.
    destruct (Ascii.eqb c "/") eqn:Ec; [apply Ascii.eqb_eq in Ec as ->|].
    + destruct (Ascii.eqb d "/") eqn:Ed; [apply Ascii.eqb_eq in Ed as ->|].
      * done.
      * intros _. destruct d as [[] [] [] [] [] [] [] []]; try done.
    + intros _. destruct c as [[] [] [] [] [] [] [] []]; try done.
Qed.

End Validation.


(** C10. Validation looks at syntax only, not at the scheme: the [URL]
    constructor accepts "mailto:user@example.com" and "javascript:alert(1)"
    (a non-special scheme followed by an opaque path), so [validateUrl] is
    [true] on both; they are then classified, as the unsupported Unknown
    platform, and entering one into the mounted component leaves it valid
    with the advisory message, not invalid. *)
Theorem validation_is_scheme_agnostic
    (laterStates : string -> string -> completion URLRecord) :
  validateUrl laterStates "mailto:user@example.com" = true
  /\ validateUrl laterStates "javascript:alert(1)" = true
  /\ detectPlatform "mailto:user@example.com" = platforms.default
  /\ detectPlatform "javascript:alert(1)" = platforms.default
  /\ supported platforms.default = false
  /\ ui (step laterStates mounted (Change "mailto:user@example.com"))
     = mkState "mailto:user@example.com" true (Some platforms.default) false
               None
               (Some "This platform is not supported yet. We support Instagram, Facebook, X (Twitter), and Threads.").
Proof. repeat split; reflexivity. Qed.

(** ** Blank input is never a URL *)

Lemma whitespace_not_url_start (c : ascii) :
  isWhiteSpace c = true -> isC0ControlOrSpace c = false -> isAlpha c = false.
Proof. destruct c as [[] [] [] [] [] [] [] []]; by vm_compute. Qed.

Lemma tab_newline_is_c0 (c : ascii) :
  isC0ControlOrSpace c = false -> isTabOrNewline c = false.
Proof. destruct c as [[] [] [] [] [] [] [] []]; by vm_compute. Qed.

Lemma trimEnd_empty (s : string) :
  trimEnd s = EmptyString -> allChars isWhiteSpace s = true.
Proof.
  induction s as [|c s IH]; [done|]; cbn [trimEnd allChars].
  destruct (trimEnd s); [|done].
  destruct (isWhiteSpace c); [|done]. intros _. by rewrite IH.
Qed.

Lemma trimStart_blank (s : string) :
  allChars isWhiteSpace (trimStart s) = true -> allChars isWhiteSpace s = true.
Proof.
  induction s as [|c s IH]; [done|]; cbn [trimStart].
  destruct (isWhiteSpace c) eqn:Ec; [|done].
  intros H. cbn [allChars]. by rewrite Ec, IH.
Qed.

Lemma stripLeading_blank (s : string) :
  allChars isWhiteSpace s = true ->
  stripLeading s = EmptyString
  \/ exists c t, stripLeading s = String c t
                 /\ isWhiteSpace c = true /\ isC0ControlOrSpace c = false.
Proof.
  induction s as [|c s IH]; [by left|]; cbn [allChars stripLeading].
  intros [Hc Hs]%andb_true_iff.
  destruct (isC0ControlOrSpace c) eqn:Ec; [by apply IH|].
  right. by exists c, s.
Qed.

Lemma stripTrailing_head (c : ascii) (t : string) :
  isC0ControlOrSpace c = false ->
  exists t', stripTrailing (String c t) = String c t'.
Proof.
  intros Hc. cbn [stripTrailing]. rewrite Hc.
  destruct (stripTrailing t); eauto.
Qed.

Lemma blank_has_no_scheme (s : string) :
  truthy (trim s) = false -> schemeStartState (preprocess s) = None.
Proof.
  intros H. unfold trim in H.
  assert (Hblank : allChars isWhiteSpace s = true).
  { apply trimStart_blank, trimEnd_empty. by destruct (trimEnd (trimStart s)). }
  unfold preprocess.
  destruct (stripLeading_blank s Hblank) as [->|(c & t & -> & Hw & Hc)];
    [done|].
  destruct (stripTrailing_head c t Hc) as [t' ->].
  cbn [removeTabNewline]. rewrite (tab_newline_is_c0 c Hc).
  cbn [schemeStartState]. by rewrite (whitespace_not_url_start c Hw Hc).
Qed.

(** ** The handlers, one event at a time *)

Ltac eff :=
  unfold step, exec, handle, rerender, urlEffect, processUrl,
    processUrl_settled, clearAndReset, fetchMediaContent, setTimeout,
    takeTimer, readState, setUrl, setIsValidUrl, setDetectedPlatform,
    setIsProcessing, setMediaContent, setError, update,
    mbind, mret, Eff_bind, Eff_ret;
  cbn -[trim validateUrl detectPlatform].

Section Machine.

Variable laterStates : string -> string -> completion URLRecord.

Lemma valid_not_blank (v : string) :
  validateUrl laterStates v = true -> truthy (trim v) = true.
Proof.
  intros Hv. destruct (truthy (trim v)) eqn:Ht; [done|].
  apply blank_has_no_scheme in Ht.
  unfold validateUrl, URL_new in Hv. by rewrite Ht in Hv.
Qed.

Lemma change_same (rt : Runtime) : step laterStates rt (Change (url (ui rt))) = rt.
Proof. eff. rewrite String.eqb_refl. by destruct rt as [[] ? ?]. Qed.

Lemma change_blank (rt : Runtime) (v : string) :
  v <> url (ui rt) -> truthy (trim v) = false ->
  step laterStates rt (Change v)
  = mkRuntime (mkState v false None false None None)
              (timers rt) (nextTimer rt).
Proof.
  intros Hne%String.eqb_neq Ht. eff. by rewrite Hne, Ht.
Qed.

Lemma change_invalid (rt : Runtime) (v : string) :
  v <> url (ui rt) -> truthy (trim v) = true -> validateUrl laterStates v = false ->
  step laterStates rt (Change v)
  = mkRuntime (mkState v false None (isProcessing (ui rt)) None None)
              (timers rt) (nextTimer rt).
Proof.
  intros Hne%String.eqb_neq Ht Hv. eff. by rewrite Hne, Ht, Hv.
Qed.

Lemma change_unsupported (rt : Runtime) (v : string) :
  v <> url (ui rt) -> validateUrl laterStates v = true ->
  supported (detectPlatform v) = false ->
  step laterStates rt (Change v)
  = mkRuntime
      (mkState v true (Some (detectPlatform v)) (isProcessing (ui rt))
               (mediaContent (ui rt))
               (Some "This platform is not supported yet. We support Instagram, Facebook, X (Twitter), and Threads."))
      (timers rt) (nextTimer rt).
Proof.
  intros Hne%String.eqb_neq Hv Hs. eff.
  by rewrite Hne, (valid_not_blank v Hv), Hv, Hs.
Qed.

(** The guard of [processUrl] reads the previous render: when that render
    was not valid and supported, nothing is started. *)
Lemma change_supported_held (rt : Runtime) (v : string) :
  v <> url (ui rt) -> validateUrl laterStates v = true ->
  supported (detectPlatform v) = true ->
  isValidUrl (ui rt) && supportedOpt (detectedPlatform (ui rt)) = false ->
  step laterStates rt (Change v)
  = mkRuntime
      (mkState v true (Some (detectPlatform v)) (isProcessing (ui rt))
               (mediaContent (ui rt)) (error (ui rt)))
      (timers rt) (nextTimer rt).
Proof.
  intros Hne%String.eqb_neq Hv Hs Hg. eff.
  rewrite Hne, (valid_not_blank v Hv), Hv, Hs.
  by destruct (isValidUrl (ui rt)), (supportedOpt (detectedPlatform (ui rt))).
Qed.

Lemma change_supported_started (rt : Runtime) (v : string)
    (p : DetectedPlatform) :
  v <> url (ui rt) -> validateUrl laterStates v = true ->
  supported (detectPlatform v) = true ->
  isValidUrl (ui rt) = true -> detectedPlatform (ui rt) = Some p ->
  supported p = true ->
  step laterStates rt (Change v)
  = mkRuntime
      (mkState v true (Some (detectPlatform v)) true None None)
      (<[nextTimer rt := mkArmed v p]> (timers rt)) (S (nextTimer rt)).
Proof.
  intros Hne%String.eqb_neq Hv Hs Hi Hp Hsp. eff.
  rewrite Hne, (valid_not_blank v Hv), Hv, Hs, Hi, Hp. cbn. by rewrite Hsp.
Qed.

Lemma reset_step (rt : Runtime) :
  step laterStates rt ClickReset = mkRuntime Idle (timers rt) (nextTimer rt).
Proof.
  eff. by destruct (url (ui rt)); cbn.
Qed.

Lemma fires_armed (rt : Runtime) (id : nat) (a : Armed) (r : Rolls) :
  timers rt !! id = Some a ->
  step laterStates rt (TimerFires id r)
  = mkRuntime
      (settle (timerCallback (armed_inputUrl a) (armed_platform a) r) (ui rt))
      (delete id (timers rt)) (nextTimer rt).
Proof.
  intros Ha. eff. rewrite Ha.
  by destruct (timerCallback (armed_inputUrl a) (armed_platform a) r).
Qed.

Lemma fires_unarmed (rt : Runtime) (id : nat) (r : Rolls) :
  timers rt !! id = None -> step laterStates rt (TimerFires id r) = rt.
Proof.
  intros Ha. eff. rewrite Ha. cbn. rewrite delete_id by done.
  by destruct rt.
Qed.

(** Mounting: the effect of the first render changes nothing. *)
Lemma mount_effect :
  exec (urlEffect laterStates Idle) (mkRuntime Idle ∅ 0) = mounted.
Proof. reflexivity. Qed.

(** The state [processUrl] leaves behind when it starts an extraction. *)
Lemma started_is_Pending (rt : Runtime) (v : string) :
  v <> url (ui rt) -> validateUrl laterStates v = true ->
  supported (detectPlatform v) = true ->
  isValidUrl (ui rt) && supportedOpt (detectedPlatform (ui rt)) = true ->
  Pending (ui (step laterStates rt (Change v))).
Proof.
  intros Hne Hv Hs [Hi Hp]%andb_true_iff.
  destruct (detectedPlatform (ui rt)) as [p|] eqn:Hd; [|done].
  by rewrite (change_supported_started rt v p).
Qed.

(** The histories used as examples stay within the modelled inputs: they
    run the same whatever the later states do. *)
Lemma example_histories_modelled :
  oneInFlight
  = run laterStates
        [Change "https://instagram.com/p"; Change "https://instagram.com/p/"]
        mounted
  /\ twoInFlight
     = run laterStates
           [Change "https://instagram.com/p"; Change "https://instagram.com/p/";
            Change "https://instagram.com/p/x"]
           mounted
  /\ step onlyModelled readyAfterOne (Change "https://tiktok.com/@user/video/1")
     = step laterStates readyAfterOne
            (Change "https://tiktok.com/@user/video/1").
Proof. split; [|split]; vm_compute; reflexivity. Qed.

End Machine.

(** ** The mocked extraction *)

Lemma floorScaled_range (r : Q) (n : Z) :
  unitInterval r -> (0 < n)%Z -> (0 <= floorScaled r n < n)%Z.
Proof.
  intros [Hlo Hhi] Hn. unfold floorScaled.
  assert (Hn' : (0 < inject_Z n)%Q).
  { change 0%Q with (inject_Z 0). by rewrite <- Zlt_Qlt. }
  split.
  - rewrite <- (Qfloor_Z 0). apply Qfloor_resp_le.
    by apply Qmult_le_0_compat; [|apply Qlt_le_weak].
  - rewrite Zlt_Qlt.
    apply Qle_lt_trans with (r * inject_Z n)%Q; [apply Qfloor_le|].
    rewrite <- (Qmult_1_l (inject_Z n)) at 2.
    by apply Qmult_lt_compat_r.
Qed.

Lemma seconds_padded (s : nat) :
  (s < 60)%nat ->
  padStart 2 "0" (Number_toString (Z.of_nat s)) = twoDigits (Z.of_nat s).
Proof.
  intros Hs. do 60 (destruct s as [|s]; [reflexivity|]). lia.
Qed.

(** C7. A descriptor that the mocked extraction resolves with has a
    duration exactly when its type is video, and the duration is the minutes
    (1 to 3), a colon, and the seconds (0 to 59) in two digits. *)
Theorem mock_duration_iff_video (inputUrl : string)
    (platform : DetectedPlatform) (r : Rolls) (content : MediaContent) :
  rollsInRange r ->
  timerCallback inputUrl platform r = Normal content ->
  (is_Some (duration content) <-> type content = video)
  /\ (forall d, duration content = Some d ->
        exists m s, (1 <= m <= 3)%Z /\ (0 <= s < 60)%Z
                    /\ d = Number_toString m +:+ ":" +:+ twoDigits s).
Proof.
  intros (_ & _ & _ & _ & Hmin & Hsec & _) Hcb.
  unfold timerCallback in Hcb.
  destruct (greater (roll_success r) (1 # 10)); [|done].
  injection Hcb as <-. unfold mockContent; cbn [duration type].
  destruct (greater (roll_video r) (4 # 10)).
  - split; [split; [done | by eexists]|].
    intros d [= <-].
    pose proof (floorScaled_range _ 3 Hmin eq_refl) as Hm.
    pose proof (floorScaled_range _ 60 Hsec eq_refl) as Hs.
    exists (floorScaled (roll_minutes r) 3 + 1)%Z,
           (floorScaled (roll_seconds r) 60).
    split; [lia|]. split; [done|].
    do 2 f_equal.
    rewrite <- (Z2Nat.id (floorScaled (roll_seconds r) 60)) by lia.
    apply seconds_padded. lia.
  - split; [split; [by intros [? ?] | done] | done].
Qed.

Lemma mock_duration_iff_video_witness :
  let content :=
    mockContent "https://instagram.com/p/" platforms.instagram rollsVideo in
  rollsInRange rollsVideo
  /\ (is_Some (duration content) <-> type content = video)
  /\ (forall d, duration content = Some d ->
        exists m s, (1 <= m <= 3)%Z /\ (0 <= s < 60)%Z
                    /\ d = Number_toString m +:+ ":" +:+ twoDigits s).
Proof.
  assert (Hr : rollsInRange rollsVideo) by (repeat split; by vm_compute).
  split; [exact Hr|].
  exact (mock_duration_iff_video
           "https://instagram.com/p/" platforms.instagram rollsVideo _
           Hr eq_refl).
Defined.

(** ** The session state, event by event *)

Section Session.

Variable laterStates : string -> string -> completion URLRecord.

Lemma fires_arm_nothing (es : list Event) (rt : Runtime) :
  forallb isFire es = true ->
  nextTimer (run laterStates es rt) = nextTimer rt.
Proof.
  revert rt; induction es as [|e es IH]; intros rt; [done|].
  cbn [forallb run fold_left]. intros [He Hes]%andb_true_iff.
  fold (run laterStates es (step laterStates rt e)). rewrite IH by done.
  destruct e as [| |id r]; try done.
  destruct (timers rt !! id) as [a|] eqn:Ha.
  - by rewrite (fires_armed _ _ _ a).
  - by rewrite fires_unarmed.
Qed.

(** C8. Whatever the state, [clearAndReset] leaves the component in the
    [Idle] defaults (empty input, not valid, no platform, no result, no
    message, not pending), and so does clearing a non-empty input to the
    empty string: the two events lead to the same runtime.  [clearAndReset]
    always completes, and doing it twice is doing it once. *)
Theorem reset_and_cleared_input_reach_Idle (rt : Runtime) :
  ui (step laterStates rt ClickReset) = Idle
  /\ step laterStates (step laterStates rt ClickReset) ClickReset
     = step laterStates rt ClickReset
  /\ (url (ui rt) <> EmptyString ->
      ui (step laterStates rt (Change EmptyString)) = Idle
      /\ step laterStates rt (Change EmptyString)
         = step laterStates rt ClickReset).
Proof.
  rewrite !reset_step. split; [done|]. split; [done|].
  intros Hne. by rewrite change_blank.
Qed.

(** C5. An input change to a string that validates and whose platform is
    unsupported leaves the component valid with the Unknown platform and
    the advisory message, which names the four supported platforms; the
    change arms no timer, and none is armed until the input changes
    again. *)
Theorem unsupported_url_is_advised_not_fetched (rt : Runtime) (v : string) :
  v <> url (ui rt) ->
  validateUrl laterStates v = true ->
  supported (detectPlatform v) = false ->
  let rt' := step laterStates rt (Change v) in
  ValidUnsupported (ui rt')
  /\ detectedPlatform (ui rt') = Some platforms.default
  /\ error (ui rt')
     = Some "This platform is not supported yet. We support Instagram, Facebook, X (Twitter), and Threads."
  /\ Forall (fun rule =>
       occurs (name (snd rule))
         "This platform is not supported yet. We support Instagram, Facebook, X (Twitter), and Threads.")
       classifyRules
  /\ timers rt' = timers rt
  /\ (forall fires, forallb isFire fires = true ->
        nextTimer (run laterStates fires rt') = nextTimer rt).
Proof.
  intros Hne Hv Hs rt'.
  assert (Hd : detectPlatform v = platforms.default).
  { revert Hs. unfold detectPlatform.
    repeat (match goal with |- context [if ?b then _ else _] =>
              destruct b end; try done). }
  subst rt'. rewrite change_unsupported by done. cbn [ui error timers].
  repeat split.
  - exists (detectPlatform v). by split.
  - by rewrite Hd.
  - repeat constructor; by apply includes_occurs.
  - intros fires Hf. by rewrite fires_arm_nothing.
Qed.

(** C6. When a timer fires in the Pending state (pending, no result, no
    message): if the extraction succeeded the component is Ready, holding
    the descriptor, not pending, no message; if it failed the component is
    Failed, holding exactly the generic message, not pending, no result. *)
Theorem settled_from_Pending (rt : Runtime) (id : nat) (a : Armed)
    (r : Rolls) :
  Pending (ui rt) ->
  timers rt !! id = Some a ->
  match timerCallback (armed_inputUrl a) (armed_platform a) r with
  | Normal content => Ready content (ui (step laterStates rt (TimerFires id r)))
  | Throw _ => Failed (ui (step laterStates rt (TimerFires id r)))
  end.
Proof.
  intros (Hp & Hm & He) Ha. rewrite (fires_armed _ _ _ a) by done.
  by destruct (timerCallback (armed_inputUrl a) (armed_platform a) r).
Qed.

(** A valid URL of a supported platform starts an extraction exactly when
    the render before the change was already valid and supported. *)
Lemma extraction_started_iff (rt : Runtime) (v : string) :
  v <> url (ui rt) ->
  validateUrl laterStates v = true ->
  supported (detectPlatform v) = true ->
  nextTimer (step laterStates rt (Change v)) = S (nextTimer rt)
  <-> isValidUrl (ui rt) && supportedOpt (detectedPlatform (ui rt)) = true.
Proof.
  intros Hne Hv Hs.
  destruct (isValidUrl (ui rt) && supportedOpt (detectedPlatform (ui rt)))
    eqn:Hg.
  - apply andb_true_iff in Hg as [Hi Hp].
    destruct (detectedPlatform (ui rt)) as [p|] eqn:Hd; [|done].
    by rewrite (change_supported_started _ _ _ p).
  - rewrite change_supported_held by done. cbn [nextTimer].
    split; [lia | done].
Qed.

(** C1, as the code has it.  With an older extraction A and a newer one B
    both in flight, the timer of A firing is applied like any other: a
    success stores the descriptor of A as the result, a failure stores the
    generic message, either clears the pending flag, and B stays in
    flight.  If A settles after B, the state is the outcome of B
    overwritten by the outcome of A. *)
Theorem stale_resolution_is_applied (rt : Runtime) (idA idB : nat)
    (a b : Armed) (rA rB : Rolls) :
  (idA < idB)%nat ->
  timers rt !! idA = Some a ->
  timers rt !! idB = Some b ->
  let outcomeA := timerCallback (armed_inputUrl a) (armed_platform a) rA in
  let outcomeB := timerCallback (armed_inputUrl b) (armed_platform b) rB in
  ui (step laterStates rt (TimerFires idA rA)) = settle outcomeA (ui rt)
  /\ timers (step laterStates rt (TimerFires idA rA)) !! idB = Some b
  /\ ui (run laterStates [TimerFires idB rB; TimerFires idA rA] rt)
     = settle outcomeA (settle outcomeB (ui rt)).
Proof.
  intros Hlt Ha Hb outcomeA outcomeB. split; [|split].
  - by rewrite (fires_armed _ _ _ a).
  - rewrite (fires_armed _ _ _ a) by done. cbn [timers].
    rewrite lookup_delete_ne by lia. done.
  - cbn [run fold_left]. rewrite (fires_armed _ rt _ b) by done.
    rewrite (fires_armed _ _ _ a); [done|].
    cbn [timers]. rewrite lookup_delete_ne by lia. done.
Qed.

Lemma orderly_settledOrWaiting (rt : Runtime) :
  Orderly laterStates rt -> settledOrWaiting rt.
Proof.
  induction 1 as [|rt v _ IH Hquiet Hslip|rt _ _ Hquiet|rt id r _ IH].
  - left. split; [done | by left].
  - destruct IH as [[_ Hex]|(id & a & Hone & _)];
      [|rewrite Hquiet in Hone; by apply eq_sym, map_non_empty_singleton in Hone].
    destruct (decide (v = url (ui rt))) as [->|Hne].
    { rewrite change_same. left. by split. }
    destruct (truthy (trim v)) eqn:Ht;
      [|rewrite change_blank by done; left; split; [done | by left]].
    destruct (validateUrl laterStates v) eqn:Hv;
      [|rewrite change_invalid by done; left; split; [done | by left]].
    destruct (supported (detectPlatform v)) eqn:Hs;
      [|rewrite change_unsupported by done; left; split;
        [done | left; by apply Hslip]].
    destruct (isValidUrl (ui rt) && supportedOpt (detectedPlatform (ui rt)))
      eqn:Hg; [|rewrite change_supported_held by done; left; by split].
    apply andb_true_iff in Hg as [Hi Hp].
    destruct (detectedPlatform (ui rt)) as [p|] eqn:Hd; [|done].
    rewrite (change_supported_started _ _ _ p) by done.
    right. exists (nextTimer rt), (mkArmed v p). cbn [timers ui].
    rewrite Hquiet. by rewrite insert_empty.
  - rewrite reset_step. left. split; [done | by left].
  - destruct IH as [[Hquiet Hex]|(id' & a & Hone & Hm & He)].
    + rewrite fires_unarmed; [left; by split|].
      by rewrite Hquiet, lookup_empty.
    + destruct (decide (id = id')) as [->|Hne].
      * rewrite (fires_armed _ _ _ a)
          by (rewrite Hone; apply lookup_singleton_eq).
        left. cbn [timers ui]. split; [by rewrite Hone, delete_singleton_eq|].
        destruct (timerCallback (armed_inputUrl a) (armed_platform a) r);
          cbn [settle mediaContent error]; [by right | by left].
      * rewrite fires_unarmed
          by (rewrite Hone; by apply lookup_singleton_ne).
        right. by exists id', a.
Qed.

(** C3, as the code has it.  In every state reached by input changes,
    resets and timers firing in which the user acts only while no
    extraction is in flight, and does not change the input to a valid URL
    of an unsupported platform while a result is present, the result and
    the message are never both present. *)
Theorem orderly_result_error_exclusive (rt : Runtime) :
  Orderly laterStates rt ->
  mediaContent (ui rt) = None \/ error (ui rt) = None.
Proof.
  intros [[_ Hex]|(id & a & _ & Hm & _)]%orderly_settledOrWaiting;
    [done | by left].
Qed.

(** C2, at the first URL entered.  "https://instagram.com/p/xyz" validates
    and is an Instagram URL, yet entering it into the mounted component
    sets no pending flag and arms no timer: the guard of [processUrl]
    reads [isValidUrl] of the render before the change. *)
Theorem first_supported_url_is_not_processed :
  let rt := step laterStates mounted (Change "https://instagram.com/p/xyz") in
  validateUrl laterStates "https://instagram.com/p/xyz" = true
  /\ detectPlatform "https://instagram.com/p/xyz" = platforms.instagram
  /\ ui rt = mkState "https://instagram.com/p/xyz" true
                     (Some platforms.instagram) false None None
  /\ timers rt = ∅
  /\ nextTimer rt = 0%nat.
Proof. repeat split; reflexivity. Qed.

End Session.

(** ** The theorems at concrete histories *)

Lemma reset_and_cleared_input_reach_Idle_witness :
  url (ui twoInFlight) <> EmptyString
  /\ ui (step onlyModelled twoInFlight (Change EmptyString)) = Idle
  /\ step onlyModelled twoInFlight (Change EmptyString)
     = step onlyModelled twoInFlight ClickReset.
Proof.
  assert (H : url (ui twoInFlight) <> EmptyString) by done.
  split; [exact H|].
  exact (proj2 (proj2 (reset_and_cleared_input_reach_Idle
                         onlyModelled twoInFlight)) H).
Defined.

Lemma unsupported_url_is_advised_not_fetched_witness :
  let v := "https://tiktok.com/@user/video/1" in
  v <> url (ui readyAfterOne)
  /\ validateUrl onlyModelled v = true
  /\ supported (detectPlatform v) = false
  /\ ValidUnsupported (ui (step onlyModelled readyAfterOne (Change v)))
  /\ timers (step onlyModelled readyAfterOne (Change v)) = timers readyAfterOne.
Proof.
  intros v.
  assert (H1 : v <> url (ui readyAfterOne)) by done.
  assert (H2 : validateUrl onlyModelled v = true) by reflexivity.
  assert (H3 : supported (detectPlatform v) = false) by reflexivity.
  destruct (unsupported_url_is_advised_not_fetched
              onlyModelled readyAfterOne v H1 H2 H3)
    as (Hstate & _ & _ & _ & Htimers & _).
  split; [exact H1|]. split; [exact H2|]. split; [exact H3|].
  split; [exact Hstate | exact Htimers].
Defined.

Lemma settled_from_Pending_witness :
  let a := mkArmed "https://instagram.com/p/" platforms.instagram in
  Pending (ui oneInFlight)
  /\ timers oneInFlight !! 0%nat = Some a
  /\ Ready (mockContent "https://instagram.com/p/" platforms.instagram rollsVideo)
           (ui (step onlyModelled oneInFlight (TimerFires 0 rollsVideo)))
  /\ Failed (ui (step onlyModelled oneInFlight (TimerFires 0 rollsFailure))).
Proof.
  intros a.
  assert (HP : Pending (ui oneInFlight)) by (repeat split; reflexivity).
  assert (Ha : timers oneInFlight !! 0%nat = Some a) by reflexivity.
  split; [exact HP|]. split; [exact Ha|]. split.
  - exact (settled_from_Pending onlyModelled oneInFlight 0 a rollsVideo HP Ha).
  - exact (settled_from_Pending onlyModelled oneInFlight 0 a rollsFailure HP Ha).
Defined.

Lemma stale_resolution_is_applied_witness :
  let a := mkArmed "https://instagram.com/p/" platforms.instagram in
  let b := mkArmed "https://instagram.com/p/x" platforms.instagram in
  timers twoInFlight !! 0%nat = Some a
  /\ timers twoInFlight !! 1%nat = Some b
  /\ ui (run onlyModelled [TimerFires 1 rollsVideo; TimerFires 0 rollsVideo]
             twoInFlight)
     = settle (timerCallback (armed_inputUrl a) (armed_platform a) rollsVideo)
         (settle (timerCallback (armed_inputUrl b) (armed_platform b) rollsVideo)
                 (ui twoInFlight)).
Proof.
  intros a b.
  assert (Ha : timers twoInFlight !! 0%nat = Some a) by reflexivity.
  assert (Hb : timers twoInFlight !! 1%nat = Some b) by reflexivity.
  split; [exact Ha|]. split; [exact Hb|].
  exact (proj2 (proj2 (stale_resolution_is_applied
                         onlyModelled twoInFlight 0 1 a b rollsVideo rollsVideo
                         (le_n 1) Ha Hb))).
Defined.

(** Against C1 as stated: with the extractions for ".../p/" (older) and
    ".../p/x" (newer) both in flight, the older one settling changes the
    state; and when it settles last, the result shown is its descriptor,
    whose download URL is not the current input. *)
Lemma stale_resolution_overwrites_newer :
  timers twoInFlight !! 0%nat
  = Some (mkArmed "https://instagram.com/p/" platforms.instagram)
  /\ timers twoInFlight !! 1%nat
     = Some (mkArmed "https://instagram.com/p/x" platforms.instagram)
  /\ ui (step onlyModelled twoInFlight (TimerFires 0 rollsVideo))
     <> ui twoInFlight
  /\ url (ui twoInFlight) = "https://instagram.com/p/x"
  /\ mediaContent
       (ui (run onlyModelled [TimerFires 1 rollsVideo; TimerFires 0 rollsVideo]
                twoInFlight))
     = Some (mockContent "https://instagram.com/p/" platforms.instagram
                         rollsVideo).
Proof. repeat split; try reflexivity. by vm_compute. Qed.

Lemma orderly_readyAfterOne : Orderly onlyModelled readyAfterOne.
Proof.
  unfold readyAfterOne, oneInFlight, run; cbn [fold_left].
  apply orderly_fires.
  apply orderly_change; [|reflexivity | reflexivity].
  apply orderly_change; [|reflexivity | reflexivity].
  apply orderly_mounted.
Defined.

Lemma orderly_result_error_exclusive_witness :
  Orderly onlyModelled readyAfterOne
  /\ (mediaContent (ui readyAfterOne) = None
      \/ error (ui readyAfterOne) = None).
Proof.
  split; [exact orderly_readyAfterOne|].
  exact (orderly_result_error_exclusive onlyModelled readyAfterOne
           orderly_readyAfterOne).
Defined.

(** Against C3 as stated: the newer extraction succeeds, then the older one
    fails; its message is stored next to the newer result. *)
Lemma stale_failure_beside_newer_result :
  let rt := run onlyModelled
                [TimerFires 1 rollsVideo; TimerFires 0 rollsFailure]
                twoInFlight in
  mediaContent (ui rt)
  = Some (mockContent "https://instagram.com/p/x" platforms.instagram rollsVideo)
  /\ error (ui rt)
     = Some "Failed to process the URL. Please check the link and try again."
  /\ ~ (mediaContent (ui rt) = None \/ error (ui rt) = None).
Proof.
  repeat split; try reflexivity. by intros [H|H]; vm_compute in H.
Qed.

(** The other way to the same end, without a stale resolution: a result is
    shown and the input changes to a valid URL of an unsupported platform;
    the branch of the effect that stores the advisory message does not
    clear the result, unlike the branches for invalid and empty input. *)
Lemma unsupported_url_keeps_old_result :
  let rt := step onlyModelled readyAfterOne
                 (Change "https://tiktok.com/@user/video/1") in
  timers readyAfterOne = ∅
  /\ mediaContent (ui rt)
     = Some (mockContent "https://instagram.com/p/" platforms.instagram
                         rollsVideo)
  /\ error (ui rt)
     = Some "This platform is not supported yet. We support Instagram, Facebook, X (Twitter), and Threads.".
Proof. repeat split; reflexivity. Qed.

(** * Further properties of the component *)

Lemma trim_truthy (s : string) : truthy (trim s) = true -> truthy s = true.
Proof. by destruct s. Qed.

Lemma without_fresh (node : nat) (children : list nat) :
  Forall (fun c => (c < node)%nat) children ->
  without node (children ++ [node])%list = Some children.
Proof.
  induction 1 as [|c children Hc _ IH]; cbn [app without].
  - by rewrite Nat.eqb_refl.
  - destruct (Nat.eqb_spec c node) as [->|_]; [lia|]. by rewrite IH.
Qed.

Section Reachability.

Variable laterStates : string -> string -> completion URLRecord.

Lemma run_snoc (es : list Event) (e : Event) (rt : Runtime) :
  run laterStates (es ++ [e])%list rt = step laterStates (run laterStates es rt) e.
Proof. unfold run. by rewrite fold_left_app. Qed.

Lemma Reachable_mounted : Reachable laterStates mounted.
Proof. by exists []. Qed.

Lemma Reachable_step (rt : Runtime) (e : Event) :
  Reachable laterStates rt -> Reachable laterStates (step laterStates rt e).
Proof. intros [es ->]. exists (es ++ [e])%list. by rewrite run_snoc. Qed.

Lemma Reachable_run (es : list Event) (rt : Runtime) :
  Reachable laterStates rt -> Reachable laterStates (run laterStates es rt).
Proof.
  revert rt; induction es as [|e es IH]; intros rt Hrt; [done|].
  apply IH. by apply Reachable_step.
Qed.

(** Induction over the events that led to a state. *)
Lemma reachable_invariant (P : Runtime -> Prop) :
  P mounted ->
  (forall rt e, Reachable laterStates rt -> P rt -> P (step laterStates rt e)) ->
  forall rt, Reachable laterStates rt -> P rt.
Proof.
  intros Hmounted Hstep rt [es ->].
  induction es as [|e es IH] using rev_ind; [done|].
  rewrite run_snoc. apply Hstep; [by exists es | done].
Qed.

(** The runtime after an input change, by the branch the effect takes. *)
Lemma change_cases (P : Runtime -> Prop) (rt : Runtime) (v : string) :
  (v = url (ui rt) -> P rt) ->
  (v <> url (ui rt) -> validateUrl laterStates v = false ->
   P (mkRuntime
        (mkState v false None (isProcessing (ui rt) && truthy (trim v))
                 None None)
        (timers rt) (nextTimer rt))) ->
  (v <> url (ui rt) -> validateUrl laterStates v = true ->
   supported (detectPlatform v) = false ->
   P (mkRuntime
        (mkState v true (Some (detectPlatform v)) (isProcessing (ui rt))
                 (mediaContent (ui rt))
                 (Some "This platform is not supported yet. We support Instagram, Facebook, X (Twitter), and Threads."))
        (timers rt) (nextTimer rt))) ->
  (v <> url (ui rt) -> validateUrl laterStates v = true ->
   supported (detectPlatform v) = true ->
   isValidUrl (ui rt) && supportedOpt (detectedPlatform (ui rt)) = false ->
   P (mkRuntime
        (mkState v true (Some (detectPlatform v)) (isProcessing (ui rt))
                 (mediaContent (ui rt)) (error (ui rt)))
        (timers rt) (nextTimer rt))) ->
  (forall p, v <> url (ui rt) -> validateUrl laterStates v = true ->
   supported (detectPlatform v) = true ->
   isValidUrl (ui rt) = true -> detectedPlatform (ui rt) = Some p ->
   supported p = true ->
   P (mkRuntime
        (mkState v true (Some (detectPlatform v)) true None None)
        (<[nextTimer rt := mkArmed v p]> (timers rt)) (S (nextTimer rt)))) ->
  P (step laterStates rt (Change v)).
Proof.
  intros Hsame Hinvalid Hunsupported Hheld Hstarted.
  destruct (decide (v = url (ui rt))) as [->|Hne].
  { rewrite change_same. by apply Hsame. }
  destruct (validateUrl laterStates v) eqn:Hv.
  - destruct (supported (detectPlatform v)) eqn:Hs.
    + destruct (isValidUrl (ui rt) && supportedOpt (detectedPlatform (ui rt)))
        eqn:Hg.
      * apply andb_true_iff in Hg as [Hi Hp].
        destruct (detectedPlatform (ui rt)) as [p|] eqn:Hd; [|done].
        rewrite (change_supported_started _ _ _ p) by done.
        by apply Hstarted.
      * rewrite change_supported_held by done. by apply Hheld.
    + rewrite change_unsupported by done. by apply Hunsupported.
  - destruct (truthy (trim v)) eqn:Ht.
    + rewrite change_invalid by done.
      specialize (Hinvalid Hne eq_refl). by rewrite andb_true_r in Hinvalid.
    + rewrite change_blank by done.
      specialize (Hinvalid Hne eq_refl). by rewrite andb_false_r in Hinvalid.
Qed.

Lemma fires_cases (P : Runtime -> Prop) (rt : Runtime) (id : nat) (r : Rolls) :
  (timers rt !! id = None -> P rt) ->
  (forall a, timers rt !! id = Some a ->
   P (mkRuntime
        (settle (timerCallback (armed_inputUrl a) (armed_platform a) r) (ui rt))
        (delete id (timers rt)) (nextTimer rt))) ->
  P (step laterStates rt (TimerFires id r)).
Proof.
  intros Hnone Hsome. destruct (timers rt !! id) as [a|] eqn:Ha.
  - rewrite (fires_armed _ _ _ a) by done. by apply Hsome.
  - rewrite fires_unarmed by done. by apply Hnone.
Qed.

Lemma blank_not_valid (v : string) :
  truthy (trim v) = false -> validateUrl laterStates v = false.
Proof.
  intros Ht. destruct (validateUrl laterStates v) eqn:Hv; [|done].
  apply valid_not_blank in Hv. congruence.
Qed.

Lemma reachable_derived (rt : Runtime) :
  Reachable laterStates rt -> derivedFromInput laterStates (ui rt).
Proof.
  revert rt. apply reachable_invariant.
  - unfold derivedFromInput. cbn [mounted ui Idle url isValidUrl detectedPlatform].
    by rewrite (blank_not_valid EmptyString).
  - intros rt e _ IH. destruct e as [v| |id r].
    + apply change_cases; try done; unfold derivedFromInput;
        cbn [ui url isValidUrl detectedPlatform]; intros;
        match goal with H : validateUrl laterStates v = _ |- _ => by rewrite H end.
    + rewrite reset_step. unfold derivedFromInput.
      cbn [ui Idle url isValidUrl detectedPlatform].
      by rewrite (blank_not_valid EmptyString).
    + apply fires_cases; [done|]. intros a _. unfold derivedFromInput in *.
      by destruct (timerCallback (armed_inputUrl a) (armed_platform a) r).
Qed.

(** X1. In every state the component reaches, the validity flag is the
    verdict of [validateUrl] on the current input, and the platform is the
    one [detectPlatform] gives for it if it is valid and absent otherwise:
    no event leaves the derived fields behind the input.  In particular
    the flag is set exactly when a platform is held. *)
Theorem derived_state_follows_input (rt : Runtime) :
  Reachable laterStates rt ->
  isValidUrl (ui rt) = validateUrl laterStates (url (ui rt))
  /\ detectedPlatform (ui rt)
     = (if validateUrl laterStates (url (ui rt))
        then Some (detectPlatform (url (ui rt))) else None)
  /\ (isValidUrl (ui rt) = true <-> is_Some (detectedPlatform (ui rt))).
Proof.
  intros [Hvalid Hplatform]%reachable_derived.
  split; [done|]. split; [done|]. rewrite Hvalid, Hplatform.
  destruct (validateUrl laterStates (url (ui rt))); split; try done;
    by intros [? ?].
Qed.

Lemma pending_has_timer_helper (rt : Runtime) :
  Reachable laterStates rt ->
  isProcessing (ui rt) = true ->
  exists id a, timers rt !! id = Some a.
Proof.
  revert rt. apply (reachable_invariant
    (fun rt => isProcessing (ui rt) = true ->
               exists id a, timers rt !! id = Some a)); [done|].
  intros rt e _ IH. destruct e as [v| |id r].
  - apply change_cases; cbn [ui isProcessing timers]; auto.
    + intros _ _ [H _]%andb_true_iff. auto.
    + intros p _ _ _ _ _ _ _. exists (nextTimer rt), (mkArmed v p).
      apply lookup_insert_eq.
  - by rewrite reset_step.
  - apply fires_cases; [done|]. intros a _.
    by destruct (timerCallback (armed_inputUrl a) (armed_platform a) r).
Qed.

(** X2. Whenever the pending flag is set in a reachable state, a timer is
    still armed, and the firing of any armed timer clears the flag: the
    component cannot stay pending with nothing left to end it. *)
Theorem pending_has_armed_timer (rt : Runtime) :
  Reachable laterStates rt ->
  isProcessing (ui rt) = true ->
  (exists id a, timers rt !! id = Some a)
  /\ (forall id a r, timers rt !! id = Some a ->
        isProcessing (ui (step laterStates rt (TimerFires id r))) = false).
Proof.
  intros Hrt Hp. split; [by apply pending_has_timer_helper|].
  intros id a r Ha. rewrite (fires_armed _ _ _ a) by done.
  by destruct (timerCallback (armed_inputUrl a) (armed_platform a) r).
Qed.

End Reachability.

Section Fetches.

Variable laterStates : string -> string -> completion URLRecord.

Lemma mockContent_resultOK (a : Armed) (r : Rolls) :
  fetchOK laterStates a ->
  resultOK laterStates (mockContent (armed_inputUrl a) (armed_platform a) r).
Proof.
  intros (Hv & Hs & Hp). unfold resultOK, mockContent.
  cbn [downloadUrl type title duration].
  split; [done|]. split; [done|].
  destruct (greater (roll_video r) (4 # 10)).
  - split; [done|]. split; [by exists (armed_platform a)|]. split.
    + cbn [shown].
      by destruct (Number_toString (floorScaled (roll_minutes r) 3 + 1)).
    + split; [done | by eexists].
  - split; [done|]. split; [by exists (armed_platform a)|].
    split; [done|]. split; [by intros [? ?] | done].
Qed.

Lemma fetchesOK_step (rt : Runtime) (e : Event) :
  fetchesOK laterStates rt -> fetchesOK laterStates (step laterStates rt e).
Proof.
  intros [Ht Hm]. destruct e as [v| |id r].
  - apply change_cases; unfold fetchesOK; cbn [ui timers mediaContent];
      try done.
    intros p _ Hv Hs _ _ Hp. split; [|done].
    intros id a [[<- <-]|[_ Ha]]%lookup_insert_Some; [done | by eapply Ht].
  - rewrite reset_step. by split.
  - apply fires_cases; [done|]. intros a Ha. split; cbn [ui timers].
    + intros id' a' [_ Ha']%lookup_delete_Some. by eapply Ht.
    + unfold timerCallback.
      destruct (greater (roll_success r) (1 # 10)); cbn [settle mediaContent].
      * intros mc [= <-]. apply mockContent_resultOK. by eapply Ht.
      * done.
Qed.

Lemma reachable_fetchesOK (rt : Runtime) :
  Reachable laterStates rt -> fetchesOK laterStates rt.
Proof.
  revert rt. apply reachable_invariant.
  - split; [|done]. intros id a. unfold mounted; cbn [timers].
    by rewrite lookup_empty.
  - intros rt e _. apply fetchesOK_step.
Qed.

(** X3. Every extraction in flight in a reachable state is for a URL that
    validates and belongs to a supported platform, and was handed a
    supported platform: nothing is ever fetched for an invalid or
    unsupported input. *)
Theorem fetches_are_for_supported_urls (rt : Runtime) (id : nat) (a : Armed) :
  Reachable laterStates rt ->
  timers rt !! id = Some a ->
  validateUrl laterStates (armed_inputUrl a) = true
  /\ supported (detectPlatform (armed_inputUrl a)) = true
  /\ supported (armed_platform a) = true.
Proof. intros [Ht _]%reachable_fetchesOK Ha. by apply (Ht id). Qed.

(** X4. Every result held in a reachable state has as download URL a URL
    that validates and belongs to a supported platform, is a video or an
    image (never a carousel), is titled with the name of a supported
    platform followed by "Video" or "Image" according to its type, and has
    a non-empty duration exactly when it is a video. *)
Theorem results_are_well_formed (rt : Runtime) (mc : MediaContent) :
  Reachable laterStates rt ->
  mediaContent (ui rt) = Some mc ->
  validateUrl laterStates (downloadUrl mc) = true
  /\ supported (detectPlatform (downloadUrl mc)) = true
  /\ (type mc = video \/ type mc = image)
  /\ (exists p, supported p = true
                /\ title mc = Some (name p +:+ " " +:+ kindWord (type mc)))
  /\ (forall d, duration mc = Some d -> truthy d = true)
  /\ (is_Some (duration mc) <-> type mc = video).
Proof.
  intros [_ Hm]%reachable_fetchesOK Hmc.
  destruct (Hm mc Hmc) as (Hv & Hs & Hc & Ht & Hd & Hiff).
  split; [done|]. split; [done|]. split; [by destruct (type mc); auto|].
  split; [done|]. split; [|done].
  intros d Hdur. rewrite Hdur in Hd. cbn [shown] in Hd.
  by destruct (truthy d).
Qed.


(** X6. An extraction that an input change starts is handed the platform
    of the render before the change, not that of the new input: when it
    succeeds, the result downloads the new input but is titled with the
    previous platform, while the state holds the platform of the new
    input. *)
Theorem result_titled_by_previous_platform (rt : Runtime) (v : string)
    (p : DetectedPlatform) (r : Rolls) :
  v <> url (ui rt) ->
  validateUrl laterStates v = true ->
  supported (detectPlatform v) = true ->
  isValidUrl (ui rt) = true ->
  detectedPlatform (ui rt) = Some p ->
  supported p = true ->
  greater (roll_success r) (1 # 10) = true ->
  let rt' := run laterStates [Change v; TimerFires (nextTimer rt) r] rt in
  exists mc, mediaContent (ui rt') = Some mc
             /\ downloadUrl mc = v
             /\ title mc = Some (name p +:+ " " +:+ kindWord (type mc))
             /\ detectedPlatform (ui rt') = Some (detectPlatform v).
Proof.
  intros Hne Hv Hs Hi Hp Hsp Hr rt'. subst rt'. cbn [run fold_left].
  rewrite (change_supported_started _ _ _ p) by done.
  rewrite (fires_armed _ _ _ (mkArmed v p)) by apply lookup_insert_eq.
  cbn [ui armed_inputUrl armed_platform]. unfold timerCallback. rewrite Hr.
  cbn [settle mediaContent detectedPlatform].
  eexists. split; [done|]. split; [done|]. split; [|done].
  unfold mockContent; cbn [title type].
  by destruct (greater (roll_video r) (4 # 10)).
Qed.

(** X7. Which events start an extraction.  An input change arms exactly
    one timer when the input differs, is a valid URL of a supported
    platform, and the state before it was already valid with a supported
    platform; the timer then carries the new input and the previous
    platform, and the state is Pending.  No other input change, no reset
    and no firing timer arms any. *)
Theorem extraction_started_exactly_when (rt : Runtime) (e : Event) :
  nextTimer (step laterStates rt e)
  = (if match e with
        | Change v => startsExtraction laterStates rt v
        | _ => false
        end
     then S (nextTimer rt) else nextTimer rt)
  /\ (forall v, e = Change v -> startsExtraction laterStates rt v = true ->
        exists p, detectedPlatform (ui rt) = Some p
                  /\ timers (step laterStates rt e)
                     = <[nextTimer rt := mkArmed v p]> (timers rt)
                  /\ Pending (ui (step laterStates rt e)))
  /\ (forall v, e = Change v -> startsExtraction laterStates rt v = false ->
        timers (step laterStates rt e) = timers rt).
Proof.
  unfold startsExtraction. destruct e as [v| |id r].
  - split; [|split].
    + apply change_cases; cbn [nextTimer].
      * intros ->. by rewrite bool_decide_eq_false_2 by auto.
      * intros _ ->. by rewrite andb_false_r.
      * intros _ _ ->. by rewrite andb_false_r.
      * intros _ _ _ Hg. rewrite <- !andb_assoc, Hg. by rewrite !andb_false_r.
      * intros p Hne -> -> -> -> Hp. cbn [supportedOpt]. rewrite Hp.
        by rewrite bool_decide_eq_true_2.
    + intros ? [= <-] H.
      repeat (apply andb_true_iff in H as [H ?]).
      apply bool_decide_eq_true in H.
      destruct (detectedPlatform (ui rt)) as [p|] eqn:Hd; [|done].
      exists p. rewrite (change_supported_started _ _ _ p) by done. done.
    + intros ? [= <-]. apply change_cases; cbn [timers]; try done.
      intros p Hne -> -> -> -> Hp. cbn [supportedOpt]. rewrite Hp.
      by rewrite bool_decide_eq_true_2.
  - rewrite reset_step. by repeat split.
  - split; [|by split].
    apply fires_cases; [done|]. by intros a _.
Qed.

End Fetches.

Section Views.

Variable laterStates : string -> string -> completion URLRecord.

(** X8. In every reachable state the green check mark is shown exactly when
    the current input validates, the red mark exactly when the input is
    non-empty and does not, and the platform block is shown exactly when
    the input validates; it then names the platform of the current input,
    announces automatic processing if that platform is supported, and
    spins while the pending flag is set. *)
Theorem validity_shown_follows_input (rt : Runtime) :
  Reachable laterStates rt ->
  let s := ui rt in
  (view_validity (render s) = Some CheckCircle
   <-> validateUrl laterStates (url s) = true)
  /\ (view_validity (render s) = Some AlertCircle
      <-> url s <> EmptyString /\ validateUrl laterStates (url s) = false)
  /\ view_platform (render s)
     = (if validateUrl laterStates (url s)
        then Some (mkPlatformPanel
                     ("p-2 rounded-lg bg-gradient-to-r "
                      +:+ color (detectPlatform (url s)))
                     (icon (detectPlatform (url s)))
                     (name (detectPlatform (url s)) +:+ " Detected")
                     (if supported (detectPlatform (url s))
                      then "Processing automatically..."
                      else "Platform not supported yet")
                     (isProcessing s))
        else None).
Proof.
  intros [Hvalid Hplatform]%reachable_derived s. subst s.
  unfold render; cbn [view_validity view_platform].
  rewrite Hvalid, Hplatform.
  destruct (validateUrl laterStates (url (ui rt))) eqn:Hv.
  - apply valid_not_blank, trim_truthy in Hv. rewrite Hv.
    split; [done|]. split; [|done]. split; [done | by intros [_ ?]].
  - split; [by destruct (truthy (url (ui rt)))|]. split; [|done].
    destruct (url (ui rt)); cbn [truthy]; split; try done.
    by intros [? _].
Qed.

(** X9. Whenever the preview is shown in a reachable state, the play
    overlay and the duration badge appear together, both exactly for a
    video, whose icon is then the play icon; the preview is never that of
    a carousel. *)
Theorem play_overlay_iff_duration_badge (rt : Runtime) (pv : Preview) :
  Reachable laterStates rt ->
  view_preview (render (ui rt)) = Some pv ->
  (preview_play pv = true <-> is_Some (preview_duration pv))
  /\ (preview_play pv = true <-> preview_type pv = video)
  /\ (preview_kindIcon pv = Play <-> preview_type pv = video)
  /\ (preview_type pv = video \/ preview_type pv = image).
Proof.
  intros [_ Hm]%reachable_fetchesOK. unfold render; cbn [view_preview].
  destruct (mediaContent (ui rt)) as [mc|]; [|done].
  destruct (Hm mc eq_refl) as (_ & _ & Hc & _ & Hshown & Hiff).
  destruct (negb (isProcessing (ui rt))); [|done]. intros [= <-].
  cbn [preview_play preview_duration preview_type preview_kindIcon].
  rewrite Hshown, Hiff.
  destruct (type mc); try done; repeat split; auto; done.
Qed.

Lemma error_known_step (rt : Runtime) (e : Event) :
  (forall m, error (ui rt) = Some m -> In m knownMessages) ->
  forall m, error (ui (step laterStates rt e)) = Some m -> In m knownMessages.
Proof.
  intros IH. destruct e as [v| |id r].
  - apply change_cases; cbn [ui error]; try done.
    intros _ _ _ m [= <-]. by left.
  - by rewrite reset_step.
  - apply fires_cases; [done|]. intros a _. cbn [ui].
    destruct (timerCallback (armed_inputUrl a) (armed_platform a) r);
      cbn [settle error]; [done|].
    intros m [= <-]. right. by left.
Qed.

(** X10. The message held in a reachable state, if any, is one of the two
    fixed texts of the component (the advisory about unsupported platforms
    or the generic failure), and the error block shows it. *)
Theorem error_is_a_known_message (rt : Runtime) (m : string) :
  Reachable laterStates rt ->
  error (ui rt) = Some m ->
  In m knownMessages /\ view_error (render (ui rt)) = Some m.
Proof.
  intros Hrt Hm.
  assert (Hin : In m knownMessages).
  { revert rt Hrt m Hm. apply (reachable_invariant laterStates
      (fun rt => forall m, error (ui rt) = Some m -> In m knownMessages));
      [done|].
    intros rt e _. apply error_known_step. }
  split; [done|]. unfold render; cbn [view_error]. rewrite Hm.
  by destruct Hin as [<-|[<-|[]]].
Qed.

Lemma quiet_fires (rt : Runtime) (fires : list Event) :
  timers rt = ∅ -> forallb isFire fires = true ->
  run laterStates fires rt = rt.
Proof.
  intros Hq. induction fires as [|e fires IH]; [done|].
  cbn [forallb run fold_left]. intros [He Hf]%andb_true_iff.
  destruct e as [| |id r]; try done.
  rewrite fires_unarmed by (by rewrite Hq, lookup_empty). by apply IH.
Qed.

(** X11. With nothing in flight, an input change to a valid URL of a
    supported platform, made when the state before it was not valid and
    supported, shows the platform block with "Processing automatically..."
    but no spinner and no processing block; no timer is armed, and the
    state stays as it is until the next user event. *)
Theorem announced_but_not_started (rt : Runtime) (v : string) :
  Reachable laterStates rt ->
  timers rt = ∅ ->
  v <> url (ui rt) ->
  validateUrl laterStates v = true ->
  supported (detectPlatform v) = true ->
  isValidUrl (ui rt) && supportedOpt (detectedPlatform (ui rt)) = false ->
  let rt' := step laterStates rt (Change v) in
  (exists panel, view_platform (render (ui rt')) = Some panel
                 /\ panel_status panel = "Processing automatically..."
                 /\ panel_spinner panel = false)
  /\ view_processing (render (ui rt')) = None
  /\ timers rt' = ∅
  /\ (forall fires, forallb isFire fires = true ->
        run laterStates fires rt' = rt').
Proof.
  intros Hrt Hq Hne Hv Hs Hg rt'.
  assert (Hp : isProcessing (ui rt) = false).
  { destruct (isProcessing (ui rt)) eqn:Hp; [|done].
    destruct (pending_has_timer_helper laterStates rt Hrt Hp) as (id & a & Ha).
    by rewrite Hq, lookup_empty in Ha. }
  subst rt'. rewrite change_supported_held by done.
  unfold render; cbn [ui view_platform view_processing detectedPlatform
                      isValidUrl isProcessing timers].
  rewrite Hs, Hp. split; [by eexists|]. split; [done|]. split; [done|].
  intros fires Hf. by apply quiet_fires.
Qed.

(** X12. A reset does not cancel an extraction in flight: its timer stays
    armed, and if it then fires with success the result is stored in the
    otherwise idle state and the preview is shown over the empty input. *)
Theorem reset_does_not_cancel (rt : Runtime) (id : nat) (a : Armed)
    (r : Rolls) :
  timers rt !! id = Some a ->
  greater (roll_success r) (1 # 10) = true ->
  let mc := mockContent (armed_inputUrl a) (armed_platform a) r in
  let rt' := run laterStates [ClickReset; TimerFires id r] rt in
  timers (step laterStates rt ClickReset) !! id = Some a
  /\ ui rt' = mkState EmptyString false None false (Some mc) None
  /\ view_input (render (ui rt')) = EmptyString
  /\ exists pv, view_preview (render (ui rt')) = Some pv
                /\ preview_src pv = thumbnail mc.
Proof.
  intros Ha Hr mc rt'. subst rt'. cbn [run fold_left].
  rewrite reset_step. cbn [timers]. split; [done|].
  rewrite (fires_armed _ _ _ a) by done. cbn [ui].
  unfold timerCallback. rewrite Hr. cbn [settle Idle url isValidUrl
    detectedPlatform mediaContent error].
  split; [done|]. split; [done|]. by eexists.
Qed.

(** X13. An input change to text that is no URL hides the platform and
    processing blocks but neither clears the pending flag nor cancels the
    extraction in flight; when that extraction succeeds, the preview is
    shown with no platform, and the download it offers is named
    "undefined_" followed by the time stamp. *)
Theorem result_after_invalid_input (rt : Runtime) (v : string) (id : nat)
    (a : Armed) (r : Rolls) (now : Z) (page : Page) :
  v <> url (ui rt) ->
  validateUrl laterStates v = false ->
  truthy (trim v) = true ->
  timers rt !! id = Some a ->
  greater (roll_success r) (1 # 10) = true ->
  pageOK page ->
  let mc := mockContent (armed_inputUrl a) (armed_platform a) r in
  let rt1 := step laterStates rt (Change v) in
  let rt2 := step laterStates rt1 (TimerFires id r) in
  isProcessing (ui rt1) = isProcessing (ui rt)
  /\ view_platform (render (ui rt1)) = None
  /\ view_processing (render (ui rt1)) = None
  /\ (exists pv, view_preview (render (ui rt2)) = Some pv
                 /\ preview_platform pv = None)
  /\ exists page', handleDownload (ui rt2) now page = Normal page'
       /\ clicked page'
          = (clicked page ++
             [mkAnchor (armed_inputUrl a)
                ("undefined_" +:+ Number_toString now +:+ "."
                 +:+ (match type mc with video => "mp4" | _ => "jpg" end))
                "_blank"])%list.
Proof.
  intros Hne Hv Ht Ha Hr Hpage mc rt1 rt2. subst rt1 rt2.
  rewrite change_invalid by done.
  rewrite (fires_armed _ _ _ a) by done. cbn [ui].
  unfold timerCallback. rewrite Hr. fold mc.
  unfold render; cbn [settle view_platform view_processing view_preview
    url isValidUrl detectedPlatform isProcessing mediaContent error negb].
  split; [done|]. split; [done|].
  split; [by destruct (isProcessing (ui rt))|]. split; [by eexists|].
  unfold handleDownload, removeChild, appendChild.
  cbn [mediaContent detectedPlatform body created clicked console option_map
       orUndefined].
  rewrite without_fresh by done. by eexists.
Qed.

(** X14. [handleDownload] never throws on a page whose nodes were all
    created before, and leaves the children of [document.body] as it found
    them: the temporary link is removed again.  Without a result it does
    nothing at all; with one it creates one node, records one click and
    logs one line. *)
Theorem handleDownload_restores_body (s : State) (now : Z) (page : Page) :
  pageOK page ->
  exists page', handleDownload s now page = Normal page'
    /\ body page' = body page
    /\ pageOK page'
    /\ match mediaContent s with
       | None => page' = page
       | Some mc =>
           created page' = S (created page)
           /\ (exists link, href link = downloadUrl mc
                            /\ target link = "_blank"
                            /\ clicked page' = (clicked page ++ [link])%list)
           /\ length (console page') = S (length (console page))
       end.
Proof.
  intros Hpage. unfold handleDownload.
  destruct (mediaContent s) as [mc|]; [|by exists page].
  unfold removeChild, appendChild. cbn [body created clicked console].
  rewrite without_fresh by done. eexists. split; [done|].
  cbn [body created clicked console]. split; [done|]. split.
  - unfold pageOK in *. cbn [body created].
    eapply Forall_impl; [exact Hpage|]. cbn. lia.
  - split; [done|]. split.
    + refine (ex_intro _ (mkAnchor (downloadUrl mc) _ "_blank") _).
      split; [done|]. by split.
    + rewrite length_app. cbn [length]. lia.
Qed.

(** X15. The download button of a reachable state: whenever the preview
    (which carries the button) is shown, [handleDownload] clicks exactly
    one link; it opens in a new tab, points to a URL that validates and
    belongs to a supported platform, and is named after the platform held
    in the state, or "undefined" if there is none, then an underscore, the
    time stamp, and the extension "mp4" for a video and "jpg" for an
    image. *)
Theorem download_offered_is_well_formed (rt : Runtime) (pv : Preview)
    (now : Z) (page : Page) :
  Reachable laterStates rt ->
  view_preview (render (ui rt)) = Some pv ->
  pageOK page ->
  exists mc page' extension,
    mediaContent (ui rt) = Some mc
    /\ handleDownload (ui rt) now page = Normal page'
    /\ clicked page'
       = (clicked page ++
          [mkAnchor (downloadUrl mc)
             (orUndefined (option_map name (detectedPlatform (ui rt)))
              +:+ "_" +:+ Number_toString now +:+ "." +:+ extension)
             "_blank"])%list
    /\ validateUrl laterStates (downloadUrl mc) = true
    /\ supported (detectPlatform (downloadUrl mc)) = true
    /\ ((type mc = video /\ extension = "mp4")
        \/ (type mc = image /\ extension = "jpg")).
Proof.
  intros [_ Hm]%reachable_fetchesOK Hpv Hpage.
  unfold render in Hpv; cbn [view_preview] in Hpv.
  destruct (mediaContent (ui rt)) as [mc|] eqn:Hmc; [|done].
  destruct (Hm mc eq_refl) as (Hv & Hs & Hc & _).
  exists mc. unfold handleDownload, removeChild, appendChild. rewrite Hmc.
  cbn [body created clicked console]. rewrite without_fresh by done.
  eexists. exists (match type mc with video => "mp4" | _ => "jpg" end).
  split; [done|]. split; [done|]. split; [done|]. split; [done|].
  split; [done|]. destruct (type mc); auto. done.
Qed.

End Views.

(** ** The further properties at concrete histories *)

Lemma reachable_oneInFlight : Reachable onlyModelled oneInFlight.
Proof. unfold oneInFlight. by eexists. Qed.

Lemma reachable_twoInFlight : Reachable onlyModelled twoInFlight.
Proof. unfold twoInFlight. by eexists. Qed.

Lemma reachable_readyAfterOne : Reachable onlyModelled readyAfterOne.
Proof. apply Reachable_step, reachable_oneInFlight. Qed.

Lemma reachable_pastedOverX : Reachable onlyModelled pastedOverX.
Proof. unfold pastedOverX. by eexists. Qed.

Lemma pageOK_examplePage : pageOK examplePage.
Proof. repeat constructor. Qed.

Lemma derived_state_follows_input_witness :
  Reachable onlyModelled twoInFlight
  /\ isValidUrl (ui twoInFlight)
     = validateUrl onlyModelled (url (ui twoInFlight))
  /\ detectedPlatform (ui twoInFlight)
     = (if validateUrl onlyModelled (url (ui twoInFlight))
        then Some (detectPlatform (url (ui twoInFlight))) else None)
  /\ (isValidUrl (ui twoInFlight) = true
      <-> is_Some (detectedPlatform (ui twoInFlight))).
Proof.
  split; [exact reachable_twoInFlight|].
  exact (derived_state_follows_input onlyModelled twoInFlight
           reachable_twoInFlight).
Defined.

Lemma pending_has_armed_timer_witness :
  Reachable onlyModelled oneInFlight
  /\ isProcessing (ui oneInFlight) = true
  /\ (exists id a, timers oneInFlight !! id = Some a)
  /\ (forall id a r, timers oneInFlight !! id = Some a ->
        isProcessing (ui (step onlyModelled oneInFlight (TimerFires id r)))
        = false).
Proof.
  split; [exact reachable_oneInFlight|]. split; [reflexivity|].
  exact (pending_has_armed_timer onlyModelled oneInFlight
           reachable_oneInFlight eq_refl).
Defined.

Lemma fetches_are_for_supported_urls_witness :
  let a := mkArmed "https://instagram.com/p/q" platforms.twitter in
  Reachable onlyModelled pastedOverX
  /\ timers pastedOverX !! 0%nat = Some a
  /\ validateUrl onlyModelled (armed_inputUrl a) = true
  /\ supported (detectPlatform (armed_inputUrl a)) = true
  /\ supported (armed_platform a) = true.
Proof.
  intros a.
  assert (Ha : timers pastedOverX !! 0%nat = Some a) by reflexivity.
  split; [exact reachable_pastedOverX|]. split; [exact Ha|].
  exact (fetches_are_for_supported_urls onlyModelled pastedOverX 0 a
           reachable_pastedOverX Ha).
Defined.

Lemma results_are_well_formed_witness :
  let mc :=
    mockContent "https://instagram.com/p/" platforms.instagram rollsVideo in
  Reachable onlyModelled readyAfterOne
  /\ mediaContent (ui readyAfterOne) = Some mc
  /\ validateUrl onlyModelled (downloadUrl mc) = true
  /\ (type mc = video \/ type mc = image)
  /\ (is_Some (duration mc) <-> type mc = video).
Proof.
  intros mc.
  assert (Hmc : mediaContent (ui readyAfterOne) = Some mc) by reflexivity.
  destruct (results_are_well_formed onlyModelled readyAfterOne mc
              reachable_readyAfterOne Hmc) as (Hv & _ & Ht & _ & _ & Hd).
  split; [exact reachable_readyAfterOne|]. split; [exact Hmc|].
  split; [exact Hv|]. split; [exact Ht | exact Hd].
Defined.


Lemma result_titled_by_previous_platform_witness :
  let rt := step onlyModelled mounted (Change "https://x.com/a") in
  let v := "https://instagram.com/p/q" in
  detectedPlatform (ui rt) = Some platforms.twitter
  /\ detectPlatform v = platforms.instagram
  /\ exists mc,
       mediaContent
         (ui (run onlyModelled [Change v; TimerFires (nextTimer rt) rollsVideo]
                  rt)) = Some mc
       /\ downloadUrl mc = v
       /\ title mc
          = Some (name platforms.twitter +:+ " " +:+ kindWord (type mc))
       /\ detectedPlatform
            (ui (run onlyModelled
                     [Change v; TimerFires (nextTimer rt) rollsVideo] rt))
          = Some (detectPlatform v).
Proof.
  intros rt v. split; [reflexivity|]. split; [reflexivity|].
  apply (result_titled_by_previous_platform onlyModelled rt v
           platforms.twitter rollsVideo); try reflexivity.
  by vm_compute.
Defined.

Lemma validity_shown_follows_input_witness :
  Reachable onlyModelled twoInFlight
  /\ (view_validity (render (ui twoInFlight)) = Some CheckCircle
      <-> validateUrl onlyModelled (url (ui twoInFlight)) = true).
Proof.
  split; [exact reachable_twoInFlight|].
  exact (proj1 (validity_shown_follows_input onlyModelled twoInFlight
                  reachable_twoInFlight)).
Defined.

Lemma play_overlay_iff_duration_badge_witness :
  Reachable onlyModelled readyAfterOne
  /\ exists pv, view_preview (render (ui readyAfterOne)) = Some pv
       /\ (preview_play pv = true <-> is_Some (preview_duration pv))
       /\ (preview_play pv = true <-> preview_type pv = video)
       /\ (preview_kindIcon pv = Play <-> preview_type pv = video)
       /\ (preview_type pv = video \/ preview_type pv = image).
Proof.
  split; [exact reachable_readyAfterOne|].
  eexists. split; [reflexivity|].
  exact (play_overlay_iff_duration_badge onlyModelled readyAfterOne _
           reachable_readyAfterOne eq_refl).
Defined.

Lemma error_is_a_known_message_witness :
  let rt := step onlyModelled oneInFlight (TimerFires 0 rollsFailure) in
  let m := "Failed to process the URL. Please check the link and try again." in
  Reachable onlyModelled rt
  /\ error (ui rt) = Some m
  /\ In m knownMessages
  /\ view_error (render (ui rt)) = Some m.
Proof.
  intros rt m.
  assert (Hrt : Reachable onlyModelled rt)
    by apply Reachable_step, reachable_oneInFlight.
  assert (Hm : error (ui rt) = Some m) by reflexivity.
  split; [exact Hrt|]. split; [exact Hm|].
  exact (error_is_a_known_message onlyModelled rt m Hrt Hm).
Defined.

Lemma announced_but_not_started_witness :
  let v := "https://instagram.com/p/xyz" in
  validateUrl onlyModelled v = true
  /\ supported (detectPlatform v) = true
  /\ view_processing (render (ui (step onlyModelled mounted (Change v)))) = None
  /\ timers (step onlyModelled mounted (Change v)) = ∅.
Proof.
  intros v.
  assert (Hv : validateUrl onlyModelled v = true) by reflexivity.
  assert (Hs : supported (detectPlatform v) = true) by reflexivity.
  assert (Hne : v <> url (ui mounted)) by done.
  destruct (announced_but_not_started onlyModelled mounted v
              (Reachable_mounted onlyModelled) eq_refl Hne Hv Hs eq_refl)
    as (_ & Hhidden & Hquiet & _).
  split; [exact Hv|]. split; [exact Hs|]. split; [exact Hhidden | exact Hquiet].
Defined.

Lemma reset_does_not_cancel_witness :
  let a := mkArmed "https://instagram.com/p/" platforms.instagram in
  timers oneInFlight !! 0%nat = Some a
  /\ greater (roll_success rollsVideo) (1 # 10) = true
  /\ ui (run onlyModelled [ClickReset; TimerFires 0 rollsVideo] oneInFlight)
     = mkState EmptyString false None false
         (Some (mockContent "https://instagram.com/p/" platforms.instagram
                            rollsVideo))
         None.
Proof.
  intros a.
  assert (Ha : timers oneInFlight !! 0%nat = Some a) by reflexivity.
  assert (Hr : greater (roll_success rollsVideo) (1 # 10) = true)
    by reflexivity.
  split; [exact Ha|]. split; [exact Hr|].
  exact (proj1 (proj2 (reset_does_not_cancel onlyModelled oneInFlight 0 a
                         rollsVideo Ha Hr))).
Defined.

Lemma result_after_invalid_input_witness :
  let a := mkArmed "https://instagram.com/p/" platforms.instagram in
  validateUrl onlyModelled "oops" = false
  /\ timers oneInFlight !! 0%nat = Some a
  /\ isProcessing (ui invalidWhileInFlight) = isProcessing (ui oneInFlight)
  /\ view_platform (render (ui invalidWhileInFlight)) = None
  /\ view_processing (render (ui invalidWhileInFlight)) = None.
Proof.
  intros a.
  assert (Hv : validateUrl onlyModelled "oops" = false) by reflexivity.
  assert (Ha : timers oneInFlight !! 0%nat = Some a) by reflexivity.
  assert (Hne : "oops" <> url (ui oneInFlight)) by done.
  destruct (result_after_invalid_input onlyModelled oneInFlight "oops" 0 a
              rollsVideo 1700000000000 examplePage Hne Hv eq_refl Ha eq_refl
              pageOK_examplePage) as (Hp & Hpanel & Hproc & _).
  split; [exact Hv|]. split; [exact Ha|]. split; [exact Hp|].
  split; [exact Hpanel | exact Hproc].
Defined.

Lemma handleDownload_restores_body_witness :
  pageOK examplePage
  /\ exists page',
       handleDownload (ui readyAfterOne) 1700000000000 examplePage
       = Normal page'
       /\ body page' = body examplePage.
Proof.
  split; [exact pageOK_examplePage|].
  destruct (handleDownload_restores_body (ui readyAfterOne) 1700000000000
              examplePage pageOK_examplePage) as (page' & Hrun & Hbody & _).
  exists page'. split; [exact Hrun | exact Hbody].
Defined.

Lemma download_offered_is_well_formed_witness :
  Reachable onlyModelled readyAfterOne
  /\ is_Some (view_preview (render (ui readyAfterOne)))
  /\ pageOK examplePage
  /\ exists mc page',
       mediaContent (ui readyAfterOne) = Some mc
       /\ handleDownload (ui readyAfterOne) 1700000000000 examplePage
          = Normal page'
       /\ validateUrl onlyModelled (downloadUrl mc) = true.
Proof.
  split; [exact reachable_readyAfterOne|]. split; [by eexists|].
  split; [exact pageOK_examplePage|].
  destruct (download_offered_is_well_formed onlyModelled readyAfterOne _
              1700000000000 examplePage reachable_readyAfterOne eq_refl
              pageOK_examplePage)
    as (mc & page' & extension & Hmc & Hrun & _ & Hv & _).
  exists mc, page'. split; [exact Hmc|]. split; [exact Hrun | exact Hv].
Defined.
